(** * The static site generator of src/index.ts

    A shallow embedding of the build script.  JavaScript strings are
    sequences of UTF-16 code units, the metadata object is a finite map
    from strings to strings, and the effects of the script (console
    output, directory creation, file writes, thrown exceptions) are
    threaded through a small trace-and-exception monad.

    The string methods and Node's [path] module are modelled after the
    language and the library.  Everything else the script calls to
    obtain text (directory listings and file contents, pandoc, the
    Handlebars templates, cheerio and highlight.js, terser,
    html-minifier) is gathered in a record of collaborators over which
    the script is parametrised; reading files is assumed to succeed and
    leaves no trace. *)

From Stdlib Require Import ZArith NArith List String Ascii Lia Bool.
From stdpp Require Import base list gmap.

Local Open Scope Z_scope.

(** ** JavaScript strings *)

(** A JavaScript string is a finite sequence of 16-bit code units. *)
Abbreviation jstring := (list N).

(** String literals of the source. *)
Definition js (s : string) : jstring :=
  List.map N_of_ascii (list_ascii_of_string s).

Module JS.

(** [s.split(sep)] for a one-character separator: the pieces between
    the occurrences of [sep]; never the empty array. *)
Fixpoint split (sep : N) (s : jstring) : list jstring :=
  match s with
  | [] => [[]]
  | c :: s' =>
      if N.eqb c sep then [] :: split sep s'
      else match split sep s' with
           | [] => [[c]]
           | piece :: pieces => (c :: piece) :: pieces
           end
  end.

(** [pieces.join(sep)], the inverse of [split]. *)
Fixpoint join (sep : N) (pieces : list jstring) : jstring :=
  match pieces with
  | [] => []
  | [p] => p
  | p :: ps => p ++ sep :: join sep ps
  end.

Fixpoint startsWith (needle s : jstring) : bool :=
  match needle, s with
  | [], _ => true
  | _ :: _, [] => false
  | a :: needle', b :: s' => N.eqb a b && startsWith needle' s'
  end.

(** [s.indexOf(needle)], counting from position [i]: the first
    position at which [needle] occurs, or [-1]. *)
Fixpoint indexOf_from (i : Z) (needle s : jstring) : Z :=
  if startsWith needle s then i
  else match s with
       | [] => -1
       | _ :: s' => indexOf_from (i + 1) needle s'
       end.

Definition indexOf (needle s : jstring) : Z := indexOf_from 0 needle s.

(** [s.includes(needle)] *)
Definition includes (needle s : jstring) : bool :=
  negb (indexOf needle s =? -1).

(** [s.endsWith(needle)] *)
Definition endsWith (needle s : jstring) : bool :=
  startsWith (rev needle) (rev s).

(** Relative index of [slice]: negative positions count from the end,
    and everything is clamped to [0 .. s.length]. *)
Definition clamp (len k : Z) : Z :=
  if k <? 0 then Z.max (len + k) 0 else Z.min k len.

(** [s.slice(from, to)] *)
Definition slice (s : jstring) (from to : Z) : jstring :=
  let len := Z.of_nat (length s) in
  let a := clamp len from in
  let b := clamp len to in
  firstn (Z.to_nat (b - a)) (skipn (Z.to_nat a) s).

(** WhiteSpace and LineTerminator code units of ECMAScript, the ones
    [trim] removes. *)
Definition isWhite (c : N) : bool :=
  let c := Z.of_N c in
  (c =? 9) || (c =? 10) || (c =? 11) || (c =? 12) || (c =? 13)
  || (c =? 32) || (c =? 160) || (c =? 5760)
  || ((8192 <=? c) && (c <=? 8202))
  || (c =? 8232) || (c =? 8233) || (c =? 8239) || (c =? 8287)
  || (c =? 12288) || (c =? 65279).

Fixpoint trimStart (s : jstring) : jstring :=
  match s with
  | [] => []
  | c :: s' => if isWhite c then trimStart s' else s
  end.

(** [s.trim()] *)
Definition trim (s : jstring) : jstring :=
  rev (trimStart (rev (trimStart s))).

End JS.

(** ** The POSIX flavour of Node's [path] module

    [path.parse] and [path.join] are library functions; they are
    modelled after lib/path.js.  [normalizeString] walks the
    slash-separated segments of a path and keeps the resolved segments;
    [parse] scans the path from its end. *)

Module Path.

Definition slash : N := 47.
Definition dot : N := 46.

Definition isSlash (c : N) : bool := N.eqb c slash.
Definition isDot (c : N) : bool := N.eqb c dot.

(** The object [path.parse] returns. *)
Record ParsedPath : Type := mkParsed {
  root : jstring;
  dir : jstring;
  base : jstring;
  ext : jstring;
  name : jstring
}.

(** One segment of [normalizeString].  [res] holds the segments kept
    so far, the last one first.  Empty segments and [.] are dropped;
    [..] removes the last kept segment unless there is none or it is
    itself [..], in which case [..] is kept when the path is relative
    ([allowAboveRoot]); every other segment is kept. *)
Definition normalizeSegment (allowAboveRoot : bool) (res : list jstring)
  (seg : jstring) : list jstring :=
  if decide (seg = [] \/ seg = [dot]) then res
  else if decide (seg = [dot; dot]) then
    match res with
    | [] => if allowAboveRoot then [seg] else []
    | top :: below =>
        if decide (top = [dot; dot])
        then (if allowAboveRoot then seg :: res else res)
        else below
    end
  else seg :: res.

Definition normalizeString (path : jstring) (allowAboveRoot : bool) : jstring :=
  JS.join slash
    (rev (fold_left (normalizeSegment allowAboveRoot) (JS.split slash path) [])).

(** [path.normalize] *)
Definition normalize (path : jstring) : jstring :=
  match path with
  | [] => [dot]
  | c0 :: _ =>
      let isAbsolute := isSlash c0 in
      let trailingSeparator := isSlash (List.last path 0%N) in
      let p := normalizeString path (negb isAbsolute) in
      match p with
      | [] => if isAbsolute then [slash]
              else if trailingSeparator then [dot; slash] else [dot]
      | _ :: _ =>
          let p := if trailingSeparator then p ++ [slash] else p in
          if isAbsolute then slash :: p else p
      end
  end.

(** [path.join(...args)]: the non-empty arguments, separated by
    slashes, normalized. *)
Definition join (args : list jstring) : jstring :=
  match List.filter (fun a => negb (bool_decide (a = []))) args with
  | [] => [dot]
  | parts => normalize (JS.join slash parts)
  end.

Fixpoint dropSlashes (s : jstring) : jstring :=
  match s with
  | [] => []
  | c :: s' => if isSlash c then dropSlashes s' else s
  end.

(** The code units before the first occurrence of a unit satisfying
    [stop], and what starts at that occurrence. *)
Fixpoint break (stop : N -> bool) (s : jstring) : jstring * jstring :=
  match s with
  | [] => ([], [])
  | c :: s' =>
      if stop c then ([], s)
      else let (before, rest) := break stop s' in (c :: before, rest)
  end.

(** [path.parse].  The library scans the path backwards (not looking
    at the leading slash of an absolute path): it skips trailing
    slashes, reads the base name up to the next slash, and remembers
    the right-most dot of the base name.  Here the same scan runs
    forwards over the reversed path. *)
Definition parse (path : jstring) : ParsedPath :=
  match path with
  | [] => mkParsed [] [] [] [] []
  | c0 :: tl =>
      let isAbsolute := isSlash c0 in
      let rootPart := if isAbsolute then [slash] else [] in
      let scanned := if isAbsolute then tl else path in
      let (rbase, rest) := break isSlash (dropSlashes (rev scanned)) in
      (* [rest] is empty when no slash was met (startPart = 0) *)
      let sawSlash := negb (bool_decide (rest = [])) in
      let base := rev rbase in
      let dir := match rest with
                 | [] => rootPart
                 | _ :: rdir => rootPart ++ rev rdir
                 end in
      match break isDot rbase with
      | (_, []) => mkParsed rootPart dir base [] base
      | (rpost, _ :: rpre) =>
          (* base = rev rpre ++ dot :: rev rpost, rpost free of dots *)
          if bool_decide (rpre = [])
             || (bool_decide (rpre = [dot]) && bool_decide (rpost = [])
                 && (sawSlash || negb isAbsolute))
          then mkParsed rootPart dir base [] base
          else mkParsed rootPart dir base (dot :: rev rpost) (rev rpre)
      end
  end.

End Path.

(** ** Exceptions and effects *)

(** What the script can throw: the [TypeError] of a method call on
    [undefined], and the error object a minifier result carries. *)
Inductive exception : Type :=
| TypeError
| MinifyError (e : jstring).

Inductive result (A : Type) : Type :=
| Ok (a : A)
| Throw (e : exception).
Arguments Ok {A} a.
Arguments Throw {A} e.

(** ** Metadata parser (parseMetadata, lines 143-152) *)

Abbreviation Metadata := (gmap jstring jstring).

Definition colon : N := 58.
Definition newline : N := 10.

(** The callback of [reduce]: destructure the pieces of one line into
    [key] and [value] (the first two pieces, whatever follows is
    dropped) and spread the accumulator with [key] bound to
    [value.trim()].  With fewer than two pieces [value] is [undefined]
    and the method call throws. *)
Definition reducer (data : Metadata) (pieces : list jstring) : result Metadata :=
  match pieces with
  | key :: value :: _ => Ok (<[key := JS.trim value]> data)
  | _ => Throw TypeError
  end.

(** [array.reduce(f, init)] for a callback that may throw. *)
Fixpoint reduce {A B : Type} (f : A -> B -> result A) (l : list B) (init : A)
  : result A :=
  match l with
  | [] => Ok init
  | x :: l' =>
      match f init x with
      | Ok acc => reduce f l' acc
      | Throw e => Throw e
      end
  end.

Definition parseMetadata (str : jstring) : result Metadata :=
  reduce reducer (List.map (JS.split colon) (JS.split newline str)) ∅.

(** ** Path resolver (formatFilename, lines 116-123) *)

Definition index_html : jstring := js "index.html".

Definition formatFilename (filename : jstring) : jstring :=
  let parsed := Path.parse filename in
  if decide (Path.base parsed = index_html) then filename
  else Path.join [Path.dir parsed; Path.name parsed; index_html].

(** The public URL of a document, as postsData computes it (lines
    103-104): the directory component of the formatted path. *)
Definition hrefOf (fullpath : jstring) : jstring :=
  let href := formatFilename fullpath in
  Path.dir (Path.parse href).

(** ** The trace of a run

    The observable actions of the script, in the order they happen. *)
Inductive event : Type :=
| ConsoleLog (line : jstring)
| ConsoleLogWarnings (ws : list jstring)
| MkdirSync (dir : jstring)
| WriteFileSync (path content : jstring).

(** A computation extends the trace and returns or throws; nothing in
    the script catches an exception. *)
Definition M (A : Type) : Type := list event -> result A * list event.

Global Instance M_ret : MRet M := fun A a tr => (Ok a, tr).

Global Instance M_bind : MBind M := fun A B f m tr =>
  match m tr with
  | (Ok a, tr') => f a tr'
  | (Throw e, tr') => (Throw e, tr')
  end.

Definition emit (ev : event) : M unit := fun tr => (Ok tt, tr ++ [ev]).

Definition throw {A : Type} (e : exception) : M A := fun tr => (Throw e, tr).

(** A pure computation that may throw. *)
Definition lift {A : Type} (r : result A) : M A := fun tr => (r, tr).

(** [for (const x of l) body(x)] *)
Fixpoint forOf {A : Type} (l : list A) (body : A -> M unit) : M unit :=
  match l with
  | [] => mret tt
  | x :: l' => body x ;; forOf l' body
  end.

(** Calling [f] on each element in turn, collecting the results. *)
Fixpoint mapM {A B : Type} (f : A -> M B) (l : list A) : M (list B) :=
  match l with
  | [] => mret []
  | x :: l' => y ← f x; ys ← mapM f l'; mret (y :: ys)
  end.

(** ** Data model (lines 86-92, 125-128, 143) *)

Record PostData : Type := mkPostData {
  html : jstring;
  filename : jstring;
  fullpath : jstring;
  href : jstring;
  metadata : Metadata
}.

Record OrgCompilationResult : Type := mkOrg {
  org_html : jstring;
  org_metadata : Metadata
}.

(** The object [defaults] returns. *)
Record Defaults : Type := mkDefaults {
  css : jstring;
  title : jstring
}.

(** What terser's [minify] returns: [warnings] and [error] are absent
    ([None]) or present. *)
Record MinifyOutput : Type := mkMinifyOutput {
  code : jstring;
  error : option jstring;
  warnings : option (list jstring)
}.

(** ** The collaborators of the script

    Everything that produces text outside the script.  html-minifier
    is described by the script texts it hands to its [minifyJS] option,
    one call per script in document order, and by the page it
    assembles from the minified scripts; it does not catch what the
    callback throws. *)
Record Collaborators : Type := mkCollaborators {
  readdirSync : jstring -> list jstring;
  readFileSync : jstring -> jstring;
  pandoc : jstring -> jstring;
  makePost : PostData -> Defaults -> jstring;
  makeIndex : list PostData -> Defaults -> jstring;
  highlightHtml : jstring -> jstring;
  minifyJs : jstring -> MinifyOutput;
  scriptsOf : jstring -> list jstring;
  assemble : jstring -> list jstring -> jstring;
  fontsCss : jstring
}.

Definition POSTS_DIR : jstring := js "./posts".
Definition siteName : jstring := js "Frank Filho".

Section Script.

Variable X : Collaborators.

(** *** Document compilation (compileOrgFile, lines 130-142) *)

Definition separator : jstring := [newline] ++ js "---" ++ [newline].

Definition compileOrgFile (path : jstring) : result OrgCompilationResult :=
  let rawContent := readFileSync X path in
  let idx := JS.indexOf separator rawContent in
  let rawMetadata := JS.slice rawContent 0 idx in
  match parseMetadata rawMetadata with
  | Throw e => Throw e
  | Ok metadata =>
      let content :=
        JS.slice rawContent (idx + Z.of_nat (length separator))
          (Z.of_nat (length rawContent)) in
      let stdout := pandoc X content in
      Ok (mkOrg stdout metadata)
  end.

(** *** Document loader (postsData, lines 94-114) *)

Fixpoint postsLoop (names : list jstring) (data : list PostData)
  : M (list PostData) :=
  match names with
  | [] => mret data
  | filename :: names' =>
      let fullpath := Path.join [POSTS_DIR; filename] in
      if negb (JS.includes (js ".org") filename) then
        emit (ConsoleLog (js "Skipping " ++ filename)) ;;
        postsLoop names' data
      else
        compiled ← lift (compileOrgFile fullpath);
        let href := hrefOf fullpath in
        postsLoop names'
          (data ++ [mkPostData (org_html compiled) filename fullpath href
                      (org_metadata compiled)])
  end.

Definition postsData : M (list PostData) :=
  postsLoop (readdirSync X POSTS_DIR) [].

(** *** Render defaults (defaults and genCss, lines 26-31, 59-62) *)

Definition genCss : jstring :=
  readFileSync X (js "assets/style.css") ++ [newline]
  ++ readFileSync X (js "assets/atom-one-dark.css").

(** [post?.metadata.title] is [undefined] without a post or without
    the key; [undefined] and the empty string are the falsy values
    it can take. *)
Definition defaults (post : option PostData) : Defaults :=
  mkDefaults genCss
    match post ≫= (fun p => metadata p !! js "title") with
    | Some ((_ :: _) as t) => t ++ js " - Frank Filho"
    | Some [] | None => siteName
    end.

(** *** HTML optimizer (optimizeHtml, lines 172-196) *)

(** The [minifyJS] option. *)
Definition minifyJS (text : jstring) : M jstring :=
  let res := minifyJs X text in
  match warnings res with
  | Some ws => emit (ConsoleLogWarnings ws)
  | None => mret tt
  end ;;
  match error res with
  | Some e => emit (ConsoleLog text) ;; throw (MinifyError e)
  | None => mret (code res)
  end.

(** [htmlMinifier.minify(html, opts)] with [opts.minifyJS = callback]. *)
Definition htmlMinifier_minify (page : jstring)
  (callback : jstring -> M jstring) : M jstring :=
  codes ← mapM callback (scriptsOf X page);
  mret (assemble X page codes).

Definition optimizeHtml (page : jstring) : M jstring :=
  let highlighted := highlightHtml X page in
  htmlMinifier_minify highlighted minifyJS.

(** *** Writing a page (write, lines 75-84) *)

Definition write (filename content : jstring) : M unit :=
  let fullpath := formatFilename (Path.join [js "build"; filename]) in
  let dir := Path.dir (Path.parse fullpath) in
  emit (MkdirSync dir) ;;
  emit (ConsoleLog (js "Writing to " ++ fullpath)) ;;
  optimized ← optimizeHtml content;
  emit (WriteFileSync fullpath optimized).

(** *** Page generation (genIndex and genPosts, lines 64-73) *)

Definition genIndex (posts : list PostData) : M unit :=
  write (js "index.html") (makeIndex X posts (defaults None)).

Definition genPosts (posts : list PostData) : M unit :=
  forOf posts (fun post =>
    write (fullpath post) (makePost X post (defaults (Some post)))).

(** *** The script's top level (lines 13-24)

    [compileFontCss] reads the fonts and writes the stylesheet made of
    them; compiling the templates and registering the partials only
    reads files. *)

Definition compileFontCss : M unit :=
  emit (WriteFileSync (js "build/assets/fonts.css") (fontsCss X)).

Definition build : M unit :=
  DATA ← postsData;
  emit (MkdirSync (js "build/assets")) ;;
  compileFontCss ;;
  genPosts DATA ;;
  genIndex DATA.

End Script.

(** ** Vocabulary of the properties *)

(** A plain segment: a non-empty name without a slash, other than [.]
    and [..]. *)
Definition plainSegment (seg : jstring) : bool :=
  negb (bool_decide (seg = [])) && negb (bool_decide (seg = [Path.dot]))
  && negb (bool_decide (seg = [Path.dot; Path.dot]))
  && forallb (fun c => negb (Path.isSlash c)) seg.

(** A plain path: plain segments separated by single slashes, after an
    optional leading slash; [posts] and [build/posts] are plain, the
    empty path, [/], [./posts] and [posts/] are not. *)
Definition plainPath (path : jstring) : bool :=
  forallb plainSegment
    (JS.split Path.slash
       match path with
       | c0 :: tl => if Path.isSlash c0 then tl else path
       | [] => []
       end).

(** The files a trace writes, in order: path and content. *)
Definition written (tr : list event) : list (jstring * jstring) :=
  flat_map (fun ev => match ev with
                      | WriteFileSync path content => [(path, content)]
                      | _ => []
                      end) tr.

(** The lines a trace prints. *)
Definition printed (tr : list event) : list jstring :=
  flat_map (fun ev => match ev with ConsoleLog line => [line] | _ => [] end) tr.

(** The place of the first write to [path] in a list of written paths. *)
Fixpoint position (path : jstring) (paths : list jstring) : option nat :=
  match paths with
  | [] => None
  | p :: paths' =>
      if decide (p = path) then Some 0%nat else S <$> position path paths'
  end.

(** Where [write] puts the page called [filename]. *)
Definition outputPath (filename : jstring) : jstring :=
  formatFilename (Path.join [js "build"; filename]).

Definition writeHeader (filename : jstring) : list event :=
  [MkdirSync (Path.dir (Path.parse (outputPath filename)));
   ConsoleLog (js "Writing to " ++ outputPath filename)].

(** What the loader does with an entry: the substring test of line 98
    and the line printed for a skipped entry. *)
Definition isOrg (filename : jstring) : bool := JS.includes (js ".org") filename.

Definition skipLine (filename : jstring) : event :=
  ConsoleLog (js "Skipping " ++ filename).

Definition suffix : jstring := js " - Frank Filho".

Section Outcomes.

Variable X : Collaborators.

(** What the callback prints for the warnings of a script. *)
Definition warningLog (text : jstring) : list event :=
  match warnings (minifyJs X text) with
  | Some ws => [ConsoleLogWarnings ws]
  | None => []
  end.

Definition accepted (text : jstring) : Prop := error (minifyJs X text) = None.

(** A page with a script the minifier reports an error for. *)
Definition rejectedPage (page : jstring) : Prop :=
  Exists (fun text => error (minifyJs X text) <> None)
    (scriptsOf X (highlightHtml X page)).

(** The page [optimizeHtml] returns when it returns. *)
Definition optimized (page : jstring) : jstring :=
  let highlighted := highlightHtml X page in
  assemble X highlighted
    (List.map (fun text => code (minifyJs X text)) (scriptsOf X highlighted)).

(** The file a document page, the index page and the font stylesheet
    end up in, with their contents. *)
Definition postPage (post : PostData) : jstring * jstring :=
  (outputPath (fullpath post),
   optimized (makePost X post (defaults X (Some post)))).

Definition indexPage (posts : list PostData) : jstring * jstring :=
  (outputPath (js "index.html"), optimized (makeIndex X posts (defaults X None))).

Definition fontsFile : jstring * jstring :=
  (js "build/assets/fonts.css", fontsCss X).

(** The Document the loader makes of a directory entry. *)
Definition documentOf (filename : jstring) (post : PostData) : Prop :=
  let path := Path.join [POSTS_DIR; filename] in
  exists compiled,
    compileOrgFile X path = Ok compiled /\
    post = mkPostData (org_html compiled) filename path (hrefOf path)
             (org_metadata compiled).

End Outcomes.

(** ** A small site to run the script on

    Collaborators for concrete runs: a posts directory with the given
    entries, every file holding [content], a converter that wraps the
    body in a paragraph, templates that print the title, a minifier
    that rejects a script ending in an open parenthesis and warns about
    [eval], and an html-minifier that takes the lines starting with
    [<script>] for scripts. *)
Definition demo (entries : list jstring) (content : jstring) : Collaborators :=
  {| readdirSync := fun _ => entries;
     readFileSync := fun _ => content;
     pandoc := fun body => js "<p>" ++ body ++ js "</p>";
     makePost := fun post d => js "<title>" ++ title d ++ js "</title>" ++ html post;
     makeIndex := fun posts d =>
       js "<title>" ++ title d ++ js "</title>" ++ List.concat (List.map href posts);
     highlightHtml := fun page => page;
     minifyJs := fun text =>
       {| code := text;
          error := if JS.endsWith (js "(") text then Some (js "SyntaxError") else None;
          warnings := if JS.includes (js "eval") text then Some [js "eval"] else None |};
     scriptsOf := fun page =>
       List.filter (JS.startsWith (js "<script>")) (JS.split newline page);
     assemble := fun page codes => page;
     fontsCss := js "@font-face{}" |}.

(** A well-formed document: header, separator, body. *)
Definition helloOrg : jstring :=
  js "title: Hello" ++ separator ++ js "Hi".

(** A document whose body carries a script the demo minifier rejects. *)
Definition brokenOrg : jstring :=
  js "title: Hello" ++ separator
  ++ js "Hi" ++ newline :: js "<script>f(" ++ newline :: js "bye".

(** A document without the separator line whose header parses. *)
Definition plainOrg : jstring :=
  js "title: Hi" ++ newline :: js "k:v!".

(** Three directory entries: a document, a backup copy of a document,
    and a file that is no document. *)
Definition threeEntries : list jstring :=
  [js "hello.org"; js "notes.org.bak"; js "README.md"].

(** ** Partials (registerPartials, lines 163-170)

    [Handlebars.registerPartial] is a call on a collaborator: the
    function is described by the calls it makes, each with the name
    and the content of a partial, in the order it makes them. *)
Definition PARTIALS_DIR : jstring := js "./partials".

Definition registerPartials (X : Collaborators) : list (jstring * jstring) :=
  List.map
    (fun filename =>
       let fullpath := Path.join [PARTIALS_DIR; filename] in
       let name := Path.name (Path.parse fullpath) in
       let content := readFileSync X fullpath in
       (name, content))
    (readdirSync X PARTIALS_DIR).

(** The name and the extension [path.parse] gives to a file name that
    follows a directory: the extension starts at the last dot, unless
    that dot is the first code unit or the file name is [..]. *)
Definition fileParts (f : jstring) : jstring * jstring :=
  match Path.break Path.isDot (rev f) with
  | (_, []) => (f, [])
  | (rpost, _ :: rpre) =>
      if bool_decide (rpre = [])
         || (bool_decide (rpre = [Path.dot]) && bool_decide (rpost = []))
      then (f, [])
      else (rev rpre, Path.dot :: rev rpost)
  end.

(** Console output, as opposed to an action on the file system. *)
Definition isConsole (ev : event) : Prop :=
  match ev with
  | ConsoleLog _ | ConsoleLogWarnings _ => True
  | MkdirSync _ | WriteFileSync _ _ => False
  end.

(** The scripts of the page of a document are all accepted. *)
Definition acceptedPost (X : Collaborators) (post : PostData) : Prop :=
  Forall (accepted X)
    (scriptsOf X (highlightHtml X (makePost X post (defaults X (Some post))))).

(** Where the entries of the result come from. *)
Definition entryOf (lines : list jstring) (k v : jstring) : Prop :=
  exists line value pieces,
    In line lines /\ JS.split colon line = k :: value :: pieces /\ v = JS.trim value.

(** An entry the loader can take: it is skipped or its file compiles. *)
Definition loadable (X : Collaborators) (filename : jstring) : Prop :=
  isOrg filename = true ->
  exists compiled, compileOrgFile X (Path.join [POSTS_DIR; filename]) = Ok compiled.

(** A document whose body repeats the separator line. *)
Definition twoRulesOrg : jstring :=
  js "title: Hello" ++ separator ++ js "above" ++ separator ++ js "below".



(** A code unit does not occur in a given literal. *)
Ltac absent :=
  let H := fresh "H" in
  intros H; vm_compute in H;
  repeat (destruct H as [H|H]; [discriminate H|]); exact H.

(** * Properties *)

(** A few values from the Node.js documentation and test suite. *)
Example parse_doc :
  Path.parse (js "/home/user/dir/file.txt")
  = Path.mkParsed (js "/") (js "/home/user/dir") (js "file.txt") (js ".txt") (js "file").
Proof. vm_compute. reflexivity. Qed.

Example join_doc :
  Path.join [js "/foo"; js "bar"; js "baz/asdf"; js "quux"; js ".."]
  = js "/foo/bar/baz/asdf".
Proof. vm_compute. reflexivity. Qed.

Example normalize_doc :
  Path.normalize (js "/foo/bar//baz/asdf/quux/..") = js "/foo/bar/baz/asdf".
Proof. vm_compute. reflexivity. Qed.

(** The extensions of the documentation of [path.extname], which
    [path.parse] computes in the same way. *)
Example parse_ext_doc :
  List.map (fun p => Path.ext (Path.parse (js p)))
    ["index.html"; "index.coffee.md"; "index."; "index"; ".index"; ".index.md"; ".."]%string
  = [js ".html"; js ".md"; js "."; []; []; js ".md"; []].
Proof. vm_compute. reflexivity. Qed.

Example join_posts :
  Path.join [js "./posts"; js "hello.org"] = js "posts/hello.org".
Proof. vm_compute. reflexivity. Qed.

Example parseMetadata_title :
  parseMetadata (js "title: Hello World") = Ok {[ js "title" := js "Hello World" ]}.
Proof. vm_compute. reflexivity. Qed.

(** ** String methods *)

Section StringFacts.

Implicit Types (s a b piece : jstring) (pieces : list jstring) (sep c : N).

Lemma split_not_nil sep s : JS.split sep s <> [].
Proof.
  destruct s as [|c s]; simpl; [discriminate|].
  destruct (N.eqb c sep); [discriminate|].
  destruct (JS.split sep s); discriminate.
Qed.

Lemma split_cons_other sep c s :
  c <> sep ->
  exists piece pieces,
    JS.split sep s = piece :: pieces /\
    JS.split sep (c :: s) = (c :: piece) :: pieces.
Proof.
  intros Hc. simpl. apply N.eqb_neq in Hc. rewrite Hc.
  destruct (JS.split sep s) as [|piece pieces] eqn:E.
  - exfalso. eapply split_not_nil; eauto.
  - eauto.
Qed.

(** A string without the separator is a single piece. *)
Lemma split_free sep s : ~ In sep s -> JS.split sep s = [s].
Proof.
  induction s as [|c s IH]; intros Hs; [reflexivity|].
  simpl. destruct (N.eqb_spec c sep) as [->|Hc].
  - exfalso. apply Hs. now left.
  - rewrite IH; [reflexivity|]. intros Hin. apply Hs. now right.
Qed.

(** Splitting distributes over an occurrence of the separator. *)
Lemma split_app sep a b :
  JS.split sep (a ++ sep :: b) = JS.split sep a ++ JS.split sep b.
Proof.
  induction a as [|c a IH].
  - simpl. now rewrite N.eqb_refl.
  - change ((c :: a) ++ sep :: b) with (c :: (a ++ sep :: b)).
    destruct (N.eqb_spec c sep) as [->|Hc].
    + simpl. rewrite N.eqb_refl. now rewrite IH.
    + destruct (split_cons_other sep c a Hc) as (p & ps & E1 & E2).
      rewrite E2. simpl. apply N.eqb_neq in Hc. rewrite Hc.
      rewrite IH, E1. reflexivity.
Qed.

Lemma split_first_piece sep a b :
  ~ In sep a -> JS.split sep (a ++ sep :: b) = a :: JS.split sep b.
Proof. intros Ha. now rewrite split_app, (split_free sep a Ha). Qed.

(** A string has a second piece exactly when it contains the separator. *)
Lemma split_second_piece sep s :
  In sep s <-> exists piece1 piece2 pieces, JS.split sep s = piece1 :: piece2 :: pieces.
Proof.
  split.
  - intros Hin. apply in_split in Hin as (a & b & ->).
    rewrite split_app.
    destruct (JS.split sep a) as [|p ps] eqn:Ea;
      [exfalso; eapply split_not_nil; eauto|].
    destruct (JS.split sep b) as [|q qs] eqn:Eb;
      [exfalso; eapply split_not_nil; eauto|].
    destruct ps as [|p' ps]; simpl; eauto.
  - intros (p1 & p2 & ps & E).
    destruct (in_dec N.eq_dec sep s) as [Hin|Hnot]; [assumption|].
    rewrite (split_free sep s Hnot) in E. discriminate.
Qed.

Lemma join_split sep s : JS.join sep (JS.split sep s) = s.
Proof.
  induction s as [|c s IH]; [reflexivity|].
  destruct (N.eqb_spec c sep) as [->|Hc].
  - simpl. rewrite N.eqb_refl.
    destruct (JS.split sep s) as [|p ps] eqn:E;
      [exfalso; eapply split_not_nil; eauto|].
    simpl in *. now rewrite IH.
  - destruct (split_cons_other sep c s Hc) as (p & ps & E1 & E2).
    rewrite E2. rewrite E1 in IH.
    destruct ps; simpl in *; now rewrite IH.
Qed.

Lemma startsWith_spec needle s :
  JS.startsWith needle s = true <-> exists b, s = needle ++ b.
Proof.
  revert s. induction needle as [|x needle IH]; intros s.
  - simpl. split; eauto.
  - destruct s as [|y s]; simpl.
    + split; [discriminate|]. intros (b & Hb). discriminate.
    + rewrite andb_true_iff, IH, N.eqb_eq. split.
      * intros (-> & b & ->). eauto.
      * intros (b & [= -> ->]). eauto.
Qed.

Lemma indexOf_from_absent i needle s :
  0 <= i ->
  JS.indexOf_from i needle s = -1 <-> ~ exists a b, s = a ++ needle ++ b.
Proof.
  revert i. induction s as [|c s IH]; intros i Hi; simpl.
  - destruct (JS.startsWith needle []) eqn:E.
    + split; [lia|]. intros Hno. exfalso. apply Hno.
      apply startsWith_spec in E as (b & Hb). exists [], b. exact Hb.
    + split; [|reflexivity]. intros _ (a & b & Hab).
      destruct a; simpl in *; [|discriminate].
      assert (JS.startsWith needle [] = true) by (apply startsWith_spec; eauto).
      congruence.
  - destruct (JS.startsWith needle (c :: s)) eqn:E.
    + split; [lia|]. intros Hno. exfalso. apply Hno.
      apply startsWith_spec in E as (b & Hb). exists [], b. exact Hb.
    + rewrite (IH (i + 1)) by lia. split.
      * intros Hno (a & b & Hab). destruct a as [|x a]; simpl in *.
        -- assert (JS.startsWith needle (c :: s) = true)
             by (apply startsWith_spec; eauto).
           congruence.
        -- injection Hab as -> ->. apply Hno. eauto.
      * intros Hno (a & b & ->). apply Hno. exists (c :: a), b. reflexivity.
Qed.

(** [indexOf] answers [-1] exactly for the strings in which the
    needle does not occur. *)
Lemma indexOf_absent needle s :
  JS.indexOf needle s = -1 <-> ~ exists a b, s = a ++ needle ++ b.
Proof. apply indexOf_from_absent. lia. Qed.

(** [slice(0, -1)] drops the last code unit. *)
Lemma slice_0_minus1 s : JS.slice s 0 (-1) = removelast s.
Proof.
  unfold JS.slice, JS.clamp. simpl.
  rewrite removelast_firstn_len.
  replace (Z.min 0 (Z.of_nat (length s))) with 0 by lia.
  simpl. f_equal. lia.
Qed.

(** [slice(k, s.length)] drops the first [k] code units. *)
Lemma slice_to_end s (k : nat) :
  JS.slice s (Z.of_nat k) (Z.of_nat (length s)) = skipn k s.
Proof.
  unfold JS.slice, JS.clamp.
  destruct (Z.ltb_spec (Z.of_nat k) 0); [lia|].
  destruct (Z.ltb_spec (Z.of_nat (length s)) 0); [lia|].
  rewrite Z.min_id.
  destruct (Nat.le_gt_cases k (length s)) as [Hk|Hk].
  - replace (Z.to_nat (Z.min (Z.of_nat k) (Z.of_nat (length s)))) with k by lia.
    apply firstn_all2. rewrite length_skipn. lia.
  - replace (Z.to_nat (Z.min (Z.of_nat k) (Z.of_nat (length s))))
      with (length s) by lia.
    rewrite !skipn_all2 by lia. now destruct (Z.to_nat _).
Qed.

End StringFacts.

(** ** Metadata parser *)

Section MetadataFacts.

Implicit Types (str line key value : jstring) (data : Metadata).

(** The callback succeeds exactly on a line with a second piece. *)
Lemma reducer_colon data line :
  In colon line ->
  exists key value pieces,
    JS.split colon line = key :: value :: pieces /\
    reducer data (JS.split colon line) = Ok (<[key := JS.trim value]> data).
Proof.
  intros Hin. apply split_second_piece in Hin as (key & value & pieces & E).
  exists key, value, pieces. now rewrite E.
Qed.

Lemma reducer_no_colon data line :
  ~ In colon line -> reducer data (JS.split colon line) = Throw TypeError.
Proof. intros Hno. now rewrite split_free. Qed.

Lemma reduce_lines_ok (lines : list jstring) data :
  Forall (fun line => In colon line) lines ->
  exists m, reduce reducer (List.map (JS.split colon) lines) data = Ok m.
Proof.
  intros Hall. revert data. induction Hall as [|line lines Hline _ IH]; intros data.
  - simpl. eauto.
  - simpl. destruct (reducer_colon data line Hline) as (k & v & ps & _ & ->).
    apply IH.
Qed.

Lemma reduce_lines_throw (lines : list jstring) data :
  Exists (fun line => ~ In colon line) lines ->
  reduce reducer (List.map (JS.split colon) lines) data = Throw TypeError.
Proof.
  intros Hex. revert data. induction Hex as [line lines Hline|line lines _ IH];
    intros data; simpl.
  - now rewrite reducer_no_colon.
  - destruct (reducer data (JS.split colon line)) as [acc|[|e]] eqn:E.
    + apply IH.
    + reflexivity.
    + destruct (JS.split colon line) as [|k [|v ps]]; discriminate.
Qed.

(** Parsing succeeds when every line of the header has a colon... *)
Lemma parseMetadata_ok str :
  Forall (fun line => In colon line) (JS.split newline str) ->
  exists m, parseMetadata str = Ok m.
Proof. apply reduce_lines_ok. Qed.

(** ... and throws a [TypeError] as soon as one line has none. *)
Lemma parseMetadata_throw str :
  Exists (fun line => ~ In colon line) (JS.split newline str) ->
  parseMetadata str = Throw TypeError.
Proof. apply reduce_lines_throw. Qed.

(** On a one-line header with a single colon the value is the whole
    remainder of the line, trimmed. *)
Lemma parseMetadata_one_colon key value :
  ~ In colon key -> ~ In colon value ->
  ~ In newline (key ++ colon :: value) ->
  parseMetadata (key ++ colon :: value) = Ok {[ key := JS.trim value ]}.
Proof.
  intros Hk Hv Hnl. unfold parseMetadata.
  rewrite (split_free newline _ Hnl). simpl.
  rewrite (split_first_piece colon key value Hk), (split_free colon value Hv).
  simpl. now rewrite insert_empty.
Qed.

(** With a second colon the value stops there: what follows the
    second colon is dropped. *)
Lemma parseMetadata_two_colons key value more :
  ~ In colon key -> ~ In colon value ->
  ~ In newline (key ++ colon :: value ++ colon :: more) ->
  parseMetadata (key ++ colon :: value ++ colon :: more)
  = Ok {[ key := JS.trim value ]}.
Proof.
  intros Hk Hv Hnl. unfold parseMetadata.
  rewrite (split_free newline _ Hnl). simpl.
  rewrite (split_first_piece colon key _ Hk), (split_first_piece colon value _ Hv).
  simpl. now rewrite insert_empty.
Qed.

End MetadataFacts.

(** C1, evaluated on a header line whose value contains colons.  The
    claim: the value of a line is the entire remainder after the first
    colon, trimmed, so a URL is preserved intact.  The parser splits the
    line [url: http://example.com] on every colon and keeps the second
    piece only: the key [url] is bound to [http], not to the trimmed
    remainder [http://example.com]. *)
Theorem parseMetadata_url_truncated :
  let line := js "url: http://example.com" in
  let remainder := js " http://example.com" in
  line = js "url" ++ colon :: remainder /\
  parseMetadata line = Ok {[ js "url" := js "http" ]} /\
  js "http" <> JS.trim remainder.
Proof. vm_compute. repeat split. discriminate. Qed.

(** C2, evaluated on a header block with a line without a colon.  The
    claim: such a line yields a key with an absent value and parsing
    still succeeds.  On the two-line block [title: Hi / draft] the
    second line has one piece, [value] is [undefined], and
    [value.trim()] throws: parsing raises a [TypeError]. *)
Theorem parseMetadata_colonless_line_throws :
  let block := js "title: Hi" ++ newline :: js "draft" in
  JS.split newline block = [js "title: Hi"; js "draft"] /\
  ~ In colon (js "draft") /\
  parseMetadata block = Throw TypeError.
Proof.
  vm_compute. repeat split.
  intros H. repeat (destruct H as [H|H]; [discriminate H|]). exact H.
Qed.

(** ** Document compilation *)

Section CompileFacts.

Variable X : Collaborators.

Lemma separator_length : length separator = 5%nat.
Proof. reflexivity. Qed.

(** What [compileOrgFile] does on a file without the separator line,
    whatever the header parse gives. *)
Lemma compileOrgFile_no_separator path :
  JS.indexOf separator (readFileSync X path) = -1 ->
  compileOrgFile X path =
    match parseMetadata (removelast (readFileSync X path)) with
    | Throw e => Throw e
    | Ok metadata =>
        Ok (mkOrg (pandoc X (skipn 4 (readFileSync X path))) metadata)
    end.
Proof.
  intros Hidx. unfold compileOrgFile. rewrite Hidx, slice_0_minus1.
  rewrite separator_length.
  change (-1 + Z.of_nat 5) with (Z.of_nat 4).
  now rewrite slice_to_end.
Qed.

End CompileFacts.

(** C9, as stated, fails on a file whose content is [hello]: the
    separator is missing, the header is taken to be [hell], a line
    without a colon, and compilation throws a [TypeError]. *)
Lemma compileOrgFile_no_separator_throws :
  let X := demo [js "hello.org"] (js "hello") in
  let raw := readFileSync X (js "posts/hello.org") in
  JS.indexOf separator raw = -1 /\
  compileOrgFile X (js "posts/hello.org") = Throw TypeError.
Proof. vm_compute. split; reflexivity. Qed.

(** C9, amended.  For every document file whose raw content does not
    contain the separator, compilation takes all code units of the raw
    content except the last as the metadata header; when every line of
    that header has a colon, compilation returns without an exception,
    with the metadata parsed from that header and with the output of
    the converter on the raw content minus its first four code units. *)
Theorem compileOrgFile_without_separator (X : Collaborators) (path : jstring) :
  let raw := readFileSync X path in
  (~ exists a b, raw = a ++ separator ++ b) ->
  Forall (fun line => In colon line) (JS.split newline (removelast raw)) ->
  exists metadata,
    parseMetadata (removelast raw) = Ok metadata /\
    compileOrgFile X path = Ok (mkOrg (pandoc X (skipn 4 raw)) metadata).
Proof.
  intros raw Hsep Hlines.
  apply indexOf_absent in Hsep.
  destruct (parseMetadata_ok _ Hlines) as [metadata Hm].
  exists metadata. split; [exact Hm|].
  rewrite (compileOrgFile_no_separator X path Hsep). fold raw. now rewrite Hm.
Qed.

(** ** Render defaults *)

Lemma siteName_not_suffixed (t : jstring) : siteName <> t ++ suffix.
Proof.
  intros H. apply (f_equal (@length N)) in H.
  rewrite length_app in H.
  change (length siteName) with 11%nat in H.
  change (length suffix) with 14%nat in H. lia.
Qed.

Lemma defaults_title (X : Collaborators) (post : PostData) :
  title (defaults X (Some post)) =
    match metadata post !! js "title" with
    | Some ((_ :: _) as t) => t ++ suffix
    | Some [] | None => siteName
    end.
Proof. reflexivity. Qed.

(** C10.  A document whose metadata binds [title] to the empty string
    gets the bare site name as its page title, the title it would get
    without the key; and whenever the page title of a document has the
    form [<t> - Frank Filho], [t] is the non-empty value its metadata
    binds to [title]. *)
Theorem defaults_empty_title (X : Collaborators) (post : PostData) :
  metadata post !! js "title" = Some [] ->
  title (defaults X (Some post)) = siteName /\
  title (defaults X (Some post))
  = title (defaults X (Some (mkPostData (html post) (filename post) (fullpath post)
                               (href post) (delete (js "title") (metadata post))))) /\
  title (defaults X None) = siteName /\
  (forall (other : PostData) (t : jstring),
      title (defaults X (Some other)) = t ++ suffix ->
      metadata other !! js "title" = Some t /\ t <> []).
Proof.
  intros Hempty. split; [|split; [|split]].
  - now rewrite defaults_title, Hempty.
  - rewrite !defaults_title, Hempty. cbn [metadata].
    now rewrite lookup_delete_eq.
  - reflexivity.
  - intros other t. rewrite defaults_title.
    destruct (metadata other !! js "title") as [[|c t']|] eqn:E.
    + intros H. now apply siteName_not_suffixed in H.
    + intros H. apply app_inv_tail in H. subst t. split; [reflexivity|discriminate].
    + intros H. now apply siteName_not_suffixed in H.
Qed.

Example defaults_title_hello :
  let post := mkPostData (js "<p>Hi</p>") (js "a.org") (js "posts/a.org")
                (js "posts/a") {[ js "title" := js "Hello" ]} in
  title (defaults (demo [] []) (Some post)) = js "Hello - Frank Filho".
Proof. vm_compute. reflexivity. Qed.

Lemma defaults_empty_title_witness :
  let post := mkPostData (js "<p>Hi</p>") (js "a.org") (js "posts/a.org")
                (js "posts/a") {[ js "title" := [] ]} in
  title (defaults (demo [] []) (Some post)) = siteName.
Proof.
  intros post.
  apply (defaults_empty_title (demo [] []) post).
  apply lookup_singleton_eq.
Defined.

(** ** Paths *)

Section PathFacts.

Import Path.

Implicit Types (path x f seg : jstring) (segs res : list jstring).

Lemma plainSegment_spec seg :
  plainSegment seg = true ->
  seg <> [] /\ seg <> [dot] /\ seg <> [dot; dot] /\ ~ In slash seg.
Proof.
  unfold plainSegment. rewrite !andb_true_iff, !negb_true_iff, !bool_decide_eq_false.
  intros [[[H1 H2] H3] H4]. repeat split; try assumption.
  intros Hin. rewrite forallb_forall in H4. specialize (H4 _ Hin).
  unfold isSlash in H4. now rewrite N.eqb_refl in H4.
Qed.

Lemma break_app (stop : N -> bool) a c r :
  Forall (fun u => stop u = false) a -> stop c = true ->
  break stop (a ++ c :: r) = (a, c :: r).
Proof.
  intros Ha Hc. induction Ha as [|u a Hu _ IH]; simpl.
  - now rewrite Hc.
  - now rewrite Hu, IH.
Qed.

Lemma dropSlashes_head c s : isSlash c = false -> dropSlashes (c :: s) = c :: s.
Proof. intros H. simpl. now rewrite H. Qed.

(** The directory and the base name that [parse] finds do not depend
    on the search for the extension. *)
Lemma parse_dir_base c0 tl :
  let rootPart := if isSlash c0 then [slash] else [] in
  let scanned := if isSlash c0 then tl else c0 :: tl in
  let found := break isSlash (dropSlashes (rev scanned)) in
  dir (parse (c0 :: tl))
  = match snd found with
    | [] => rootPart
    | _ :: rdir => rootPart ++ rev rdir
    end /\
  base (parse (c0 :: tl)) = rev (fst found).
Proof.
  intros rootPart scanned found. unfold parse. fold rootPart scanned found.
  destruct found as [rbase rest]. simpl fst. simpl snd.
  destruct (break isDot rbase) as [rpost [|d rpre]].
  - split; reflexivity.
  - destruct (_ || _); split; reflexivity.
Qed.

(** The directory of [x/f] is [x], for a non-empty [x] and a file
    name [f]. *)
Lemma parse_dir_snoc x f :
  x <> [] -> f <> [] -> ~ In slash f ->
  dir (parse (x ++ slash :: f)) = x /\ base (parse (x ++ slash :: f)) = f.
Proof.
  intros Hx Hf Hslash. destruct x as [|c0 x']; [congruence|].
  change ((c0 :: x') ++ slash :: f) with (c0 :: (x' ++ slash :: f)).
  destruct (parse_dir_base c0 (x' ++ slash :: f)) as [Hdir Hbase].
  rewrite Hdir, Hbase. clear Hdir Hbase.
  set (y := if isSlash c0 then x' else c0 :: x').
  assert (Hscan : (if isSlash c0 then x' ++ slash :: f else c0 :: x' ++ slash :: f)
                  = y ++ slash :: f)
    by (unfold y; now destruct (isSlash c0)).
  rewrite Hscan, rev_app_distr. simpl rev. rewrite <- app_assoc. simpl app.
  assert (Hfree : Forall (fun u => isSlash u = false) (rev f)).
  { apply List.Forall_forall. intros u Hu. apply in_rev in Hu.
    unfold isSlash. apply N.eqb_neq. intros ->. contradiction. }
  assert (Hdrop : dropSlashes (rev f ++ slash :: rev y) = rev f ++ slash :: rev y).
  { destruct (rev f) as [|u rf] eqn:E.
    - apply (f_equal (@rev N)) in E. rewrite rev_involutive in E. contradiction.
    - apply dropSlashes_head. now inversion Hfree. }
  rewrite Hdrop, (break_app isSlash (rev f) slash (rev y) Hfree eq_refl).
  simpl. rewrite !rev_involutive. split; [|reflexivity].
  unfold y. destruct (isSlash c0) eqn:E; [|reflexivity].
  apply N.eqb_eq in E. now subst c0.
Qed.

(** Plain segments are kept as they are by [normalizeString]. *)
Lemma normalizeSegment_plain allow res seg :
  plainSegment seg = true -> normalizeSegment allow res seg = seg :: res.
Proof.
  intros Hseg. apply plainSegment_spec in Hseg as (H1 & H2 & H3 & _).
  unfold normalizeSegment.
  destruct (decide (seg = [] \/ seg = [dot])) as [[?|?]|_]; [contradiction..|].
  destruct (decide (seg = [dot; dot])); [contradiction|reflexivity].
Qed.

Lemma fold_normalizeSegment_plain allow segs res :
  forallb plainSegment segs = true ->
  fold_left (normalizeSegment allow) segs res = rev segs ++ res.
Proof.
  revert res. induction segs as [|seg segs IH]; intros res Hall; [reflexivity|].
  simpl in Hall. apply andb_true_iff in Hall as [Hseg Hall].
  simpl. rewrite (normalizeSegment_plain allow res seg Hseg), IH by assumption.
  now rewrite <- app_assoc.
Qed.

Lemma normalizeString_plain allow path :
  forallb plainSegment (JS.split slash path) = true ->
  normalizeString path allow = path.
Proof.
  intros Hall. unfold normalizeString.
  rewrite fold_normalizeSegment_plain, app_nil_r, rev_involutive by assumption.
  apply join_split.
Qed.

Lemma join_ends_with_last (sep : N) segs :
  segs <> [] -> exists pre, JS.join sep segs = pre ++ List.last segs [].
Proof.
  induction segs as [|seg segs IH]; [congruence|]. intros _.
  destruct segs as [|seg' segs].
  - exists []. reflexivity.
  - destruct IH as [pre Hpre]; [discriminate|].
    exists (seg ++ sep :: pre).
    change (JS.join sep (seg :: seg' :: segs))
      with (seg ++ sep :: JS.join sep (seg' :: segs)).
    rewrite Hpre, <- app_assoc. reflexivity.
Qed.

(** A path made of plain segments is not empty and does not end in a
    slash. *)
Lemma plain_segments_last path :
  forallb plainSegment (JS.split slash path) = true ->
  path <> [] /\ isSlash (List.last path 0%N) = false.
Proof.
  intros Hall.
  assert (Hne := split_not_nil slash path).
  destruct (join_ends_with_last slash _ Hne) as [pre Hpre].
  rewrite join_split in Hpre.
  assert (Hlast : plainSegment (List.last (JS.split slash path) []) = true).
  { rewrite forallb_forall in Hall. apply Hall.
    destruct (exists_last Hne) as (l & seg & ->). rewrite last_last.
    apply in_or_app. right. now left. }
  apply plainSegment_spec in Hlast as (Hnil & _ & _ & Hslash).
  set (seg := List.last (JS.split slash path) []) in *.
  destruct (exists_last Hnil) as (seg' & c & Hseg).
  rewrite Hpre, Hseg, app_assoc, last_last. split.
  - intros H. now apply app_eq_nil in H as [_ [=]].
  - unfold isSlash. apply N.eqb_neq. intros ->. apply Hslash.
    rewrite Hseg. apply in_or_app. right. now left.
Qed.

Lemma plainPath_not_nil path : plainPath path = true -> path <> [].
Proof. intros H ->. discriminate H. Qed.

(** [normalize] leaves a plain path as it is. *)
Lemma normalize_plain path : plainPath path = true -> normalize path = path.
Proof.
  destruct path as [|c0 tl]; [discriminate|]. unfold plainPath. intros Hall.
  unfold normalize. destruct (isSlash c0) eqn:Habs.
  - apply N.eqb_eq in Habs. subst c0.
    destruct (plain_segments_last tl Hall) as [Htl Hlast].
    assert (Hstr : normalizeString (slash :: tl) (negb true) = tl).
    { unfold normalizeString.
      change (JS.split slash (slash :: tl)) with ([] :: JS.split slash tl).
      change (fold_left (normalizeSegment (negb true)) ([] :: JS.split slash tl) [])
        with (fold_left (normalizeSegment (negb true)) (JS.split slash tl) []).
      rewrite fold_normalizeSegment_plain, app_nil_r, rev_involutive by assumption.
      apply join_split. }
    rewrite Hstr. destruct tl as [|c tl']; [congruence|].
    change (List.last (slash :: c :: tl') 0%N) with (List.last (c :: tl') 0%N).
    now rewrite Hlast.
  - destruct (plain_segments_last (c0 :: tl) Hall) as [_ Hlast].
    rewrite (normalizeString_plain _ _ Hall), Hlast. reflexivity.
Qed.

Lemma plainSegment_index_html : plainSegment index_html = true.
Proof. reflexivity. Qed.

Lemma plainSegment_split seg :
  plainSegment seg = true ->
  JS.split slash (seg ++ slash :: index_html) = [seg; index_html].
Proof.
  intros Hseg. apply plainSegment_spec in Hseg as (_ & _ & _ & Hslash).
  rewrite (split_first_piece slash seg _ Hslash). f_equal.
Qed.

(** Joining a plain directory, a plain name and [index.html] is
    concatenation with slashes. *)
Lemma join_dir_name d n :
  plainPath d = true -> plainSegment n = true ->
  join [d; n; index_html] = d ++ slash :: n ++ slash :: index_html.
Proof.
  intros Hd Hn.
  assert (Hdne := plainPath_not_nil d Hd).
  assert (Hnne : n <> []) by (now apply plainSegment_spec in Hn).
  unfold join. cbn [List.filter].
  rewrite !bool_decide_eq_false_2 by (assumption || discriminate). cbn [negb].
  change (JS.join slash [d; n; index_html])
    with (d ++ slash :: JS.join slash [n; index_html]).
  change (JS.join slash [n; index_html]) with (n ++ slash :: index_html).
  apply normalize_plain.
  destruct d as [|c0 tl]; [congruence|]. unfold plainPath in *.
  change ((c0 :: tl) ++ slash :: n ++ slash :: index_html)
    with (c0 :: (tl ++ slash :: n ++ slash :: index_html)).
  cbv beta iota in Hd |- *.
  assert (Hrel : (if isSlash c0 then tl ++ slash :: n ++ slash :: index_html
                  else c0 :: tl ++ slash :: n ++ slash :: index_html)
                 = (if isSlash c0 then tl else c0 :: tl)
                     ++ slash :: n ++ slash :: index_html)
    by (now destruct (isSlash c0)).
  rewrite Hrel, split_app, forallb_app, Hd, (plainSegment_split n Hn).
  cbn [forallb andb]. now rewrite Hn.
Qed.

(** Without a directory the joined path starts at the name. *)
Lemma join_name n :
  plainSegment n = true ->
  join [[]; n; index_html] = n ++ slash :: index_html.
Proof.
  intros Hn.
  assert (Hspec := plainSegment_spec n Hn). destruct Hspec as (Hnne & _ & _ & Hslash).
  unfold join. cbn [List.filter].
  rewrite bool_decide_eq_true_2 by reflexivity.
  rewrite !bool_decide_eq_false_2 by (assumption || discriminate). cbn [negb].
  change (JS.join slash [n; index_html]) with (n ++ slash :: index_html).
  apply normalize_plain.
  destruct n as [|c tl]; [congruence|]. unfold plainPath.
  change ((c :: tl) ++ slash :: index_html) with (c :: (tl ++ slash :: index_html)).
  assert (Hc : isSlash c = false).
  { unfold isSlash. apply N.eqb_neq. intros ->. apply Hslash. now left. }
  cbv beta iota. rewrite Hc.
  change (c :: tl ++ slash :: index_html) with ((c :: tl) ++ slash :: index_html).
  rewrite (plainSegment_split _ Hn). cbn [forallb andb]. now rewrite Hn.
Qed.

End PathFacts.

(** ** Path resolver *)

Section ResolverFacts.

Import Path.

Lemma formatFilename_index P :
  base (parse P) = index_html -> formatFilename P = P.
Proof.
  intros Hbase. unfold formatFilename.
  destruct (decide (base (parse P) = index_html)); [reflexivity|contradiction].
Qed.

Lemma formatFilename_other P :
  base (parse P) <> index_html ->
  formatFilename P = join [dir (parse P); name (parse P); index_html].
Proof.
  intros Hbase. unfold formatFilename.
  destruct (decide (base (parse P) = index_html)); [contradiction|reflexivity].
Qed.

Lemma index_html_no_slash : ~ In slash index_html.
Proof.
  intros H. vm_compute in H.
  repeat (destruct H as [H|H]; [discriminate H|]). exact H.
Qed.

Lemma index_html_not_nil : index_html <> [].
Proof. discriminate. Qed.

(** [./q] normalizes to [q], for a plain relative path [q]. *)
Lemma normalize_dot_slash q :
  forallb plainSegment (JS.split slash q) = true ->
  normalize (dot :: slash :: q) = q.
Proof.
  intros Hq. destruct (plain_segments_last q Hq) as [Hne Hlast].
  unfold normalize.
  change (isSlash dot) with false. cbn [negb].
  assert (Hstr : normalizeString (dot :: slash :: q) true = q).
  { unfold normalizeString.
    change (JS.split slash (dot :: slash :: q)) with ([dot] :: JS.split slash q).
    change (fold_left (normalizeSegment true) ([dot] :: JS.split slash q) [])
      with (fold_left (normalizeSegment true) (JS.split slash q) []).
    rewrite fold_normalizeSegment_plain, app_nil_r, rev_involutive by assumption.
    apply join_split. }
  rewrite Hstr. destruct q as [|c q']; [congruence|].
  change (List.last (dot :: slash :: c :: q') 0%N) with (List.last (c :: q') 0%N).
  now rewrite Hlast.
Qed.

(** The path of a document: the entry [f] of the posts directory is
    read from [posts/f]. *)
Lemma join_posts_entry f :
  plainSegment f = true ->
  join [POSTS_DIR; f] = js "posts" ++ slash :: f.
Proof.
  intros Hf. assert (Hspec := plainSegment_spec f Hf).
  destruct Hspec as (Hne & _ & _ & Hslash).
  unfold join. cbn [List.filter].
  rewrite (bool_decide_eq_false_2 (POSTS_DIR = [])) by discriminate.
  rewrite (bool_decide_eq_false_2 (f = [])) by assumption. cbn [negb].
  change (JS.join slash [POSTS_DIR; f])
    with (dot :: slash :: (js "posts" ++ slash :: f)).
  apply normalize_dot_slash.
  rewrite (split_first_piece slash (js "posts") f).
  - rewrite (split_free slash f Hslash). cbn [forallb]. now rewrite Hf.
  - intros H. vm_compute in H.
    repeat (destruct H as [H|H]; [discriminate H|]). exact H.
Qed.

(** Where a document of the posts directory is served: for an entry
    [f] other than [index.html] whose name is a plain segment, the
    href is [posts/<name>]. *)
Lemma document_href f :
  plainSegment f = true -> f <> index_html ->
  let P := join [POSTS_DIR; f] in
  plainSegment (name (parse P)) = true ->
  dir (parse P) = js "posts" /\ base (parse P) = f /\
  hrefOf P = js "posts" ++ slash :: name (parse P).
Proof.
  intros Hf Hidx P. unfold P. rewrite (join_posts_entry f Hf).
  assert (Hspec := plainSegment_spec f Hf). destruct Hspec as (Hne & _ & _ & Hslash).
  destruct (parse_dir_snoc (js "posts") f) as [Hdir Hbase]; [discriminate|assumption..|].
  intros Hname. split; [assumption|]. split; [assumption|].
  unfold hrefOf. rewrite formatFilename_other by (now rewrite Hbase).
  rewrite Hdir, (join_dir_name (js "posts") _ eq_refl Hname).
  assert (E : js "posts" ++ slash :: name (parse (js "posts" ++ slash :: f))
                ++ slash :: index_html
              = (js "posts" ++ slash :: name (parse (js "posts" ++ slash :: f)))
                  ++ slash :: index_html)
    by (now rewrite <- app_assoc).
  rewrite E.
  apply parse_dir_snoc; auto using index_html_not_nil, index_html_no_slash.
Qed.

End ResolverFacts.

(** C3, as stated, fails on [./posts/hello.org] (the posts directory
    as the source spells it): the directory is [./posts], the name is
    [hello], and the resolver answers [posts/hello/index.html], not
    [./posts/hello/index.html]. *)
Lemma formatFilename_not_concatenation :
  let P := js "./posts/hello.org" in
  let parsed := Path.parse P in
  Path.base parsed <> index_html /\
  Path.dir parsed = js "./posts" /\ Path.name parsed = js "hello" /\
  formatFilename P = js "posts/hello/index.html" /\
  formatFilename P
  <> Path.dir parsed ++ Path.slash :: Path.name parsed ++ Path.slash :: index_html.
Proof. vm_compute. repeat split; discriminate. Qed.

(** Entries of the posts directory with a dotted name: the name of
    [..org] is [.], the name of [...org] is [..], and the join
    resolves them. *)
Example formatFilename_dotted_entries :
  formatFilename (js "posts/..org") = js "posts/index.html" /\
  formatFilename (js "posts/...org") = js "index.html".
Proof. vm_compute. split; reflexivity. Qed.

(** C3, amended.  For every source path P whose base name is not
    [index.html], the output path is [path.join] of the directory of
    P, the name of P (its base name without extension) and
    [index.html].  When the name is a plain segment and the directory
    is a plain path, as it is for every path the build formats, this
    is [<dir(P)>/<name(P)>/index.html]; when the name is a plain
    segment and P has no directory, it is [<name(P)>/index.html]. *)
Theorem formatFilename_pretty (P : jstring) :
  let parsed := Path.parse P in
  Path.base parsed <> index_html ->
  formatFilename P = Path.join [Path.dir parsed; Path.name parsed; index_html] /\
  (plainSegment (Path.name parsed) = true ->
   plainPath (Path.dir parsed) = true ->
   formatFilename P
   = Path.dir parsed ++ Path.slash :: Path.name parsed ++ Path.slash :: index_html) /\
  (plainSegment (Path.name parsed) = true ->
   Path.dir parsed = [] ->
   formatFilename P = Path.name parsed ++ Path.slash :: index_html).
Proof.
  intros parsed Hbase. rewrite (formatFilename_other P Hbase). fold parsed.
  split; [reflexivity|]. split.
  - intros Hname Hdir. now apply join_dir_name.
  - intros Hname ->. now apply join_name.
Qed.

Lemma formatFilename_pretty_witness :
  formatFilename (js "posts/hello.org") = js "posts/hello/index.html" /\
  formatFilename (js "about.org") = js "about/index.html".
Proof.
  split.
  - apply (proj1 (proj2 (formatFilename_pretty (js "posts/hello.org")
                           ltac:(vm_compute; discriminate)))); reflexivity.
  - apply (proj2 (proj2 (formatFilename_pretty (js "about.org")
                           ltac:(vm_compute; discriminate)))); reflexivity.
Defined.

(** C4, as stated, fails on [posts/hello.org]: the href is
    [posts/hello], the directory component of the output path; it does
    not end in a path separator. *)
Lemma href_no_trailing_separator :
  let P := js "posts/hello.org" in
  let parsed := Path.parse P in
  Path.base parsed <> index_html /\
  hrefOf P = js "posts/hello" /\
  hrefOf P <> Path.dir parsed ++ Path.slash :: Path.name parsed ++ [Path.slash].
Proof. vm_compute. repeat split; discriminate. Qed.

(** C4, amended.  For every source path P whose base name is not
    [index.html], whose name is a plain segment and whose directory is
    a plain path, the href is [<dir(P)>/<name(P)>]: the output path
    without its trailing [/index.html], with no path separator at the
    end.  When P has no directory the href is [<name(P)>]. *)
Theorem href_pretty (P : jstring) :
  let parsed := Path.parse P in
  Path.base parsed <> index_html ->
  plainSegment (Path.name parsed) = true ->
  (plainPath (Path.dir parsed) = true ->
   hrefOf P = Path.dir parsed ++ Path.slash :: Path.name parsed /\
   formatFilename P = hrefOf P ++ Path.slash :: index_html) /\
  (Path.dir parsed = [] ->
   hrefOf P = Path.name parsed /\
   formatFilename P = hrefOf P ++ Path.slash :: index_html).
Proof.
  intros parsed Hbase Hname. unfold hrefOf.
  rewrite (formatFilename_other P Hbase). fold parsed.
  assert (Hn : Path.name parsed <> []) by (now apply plainSegment_spec in Hname).
  split.
  - intros Hdir. rewrite (join_dir_name _ _ Hdir Hname).
    assert (E : Path.dir parsed ++ Path.slash :: Path.name parsed ++ Path.slash :: index_html
                = (Path.dir parsed ++ Path.slash :: Path.name parsed)
                    ++ Path.slash :: index_html)
      by (now rewrite <- app_assoc).
    rewrite E.
    destruct (parse_dir_snoc (Path.dir parsed ++ Path.slash :: Path.name parsed) index_html)
      as [-> _]; auto using index_html_not_nil, index_html_no_slash.
    intros H. now apply app_eq_nil in H as [_ [=]].
  - intros Hdir. rewrite Hdir, (join_name _ Hname).
    destruct (parse_dir_snoc (Path.name parsed) index_html)
      as [-> _]; auto using index_html_not_nil, index_html_no_slash.
Qed.

Lemma href_pretty_witness :
  hrefOf (js "posts/hello.org") = js "posts/hello" /\
  hrefOf (js "about.org") = js "about".
Proof.
  split.
  - apply (proj1 (href_pretty (js "posts/hello.org")
                    ltac:(vm_compute; discriminate) eq_refl)).
    reflexivity.
  - apply (proj2 (href_pretty (js "about.org")
                    ltac:(vm_compute; discriminate) eq_refl)).
    reflexivity.
Defined.

(** C5, as stated, fails on [posts/index.html]: the output path is the
    source path, but the href is [posts], without a path separator at
    the end. *)
Lemma href_of_index_no_separator :
  let P := js "posts/index.html" in
  Path.base (Path.parse P) = index_html /\
  formatFilename P = P /\
  hrefOf P = js "posts" /\
  hrefOf P <> Path.dir (Path.parse P) ++ [Path.slash].
Proof. vm_compute. repeat split; discriminate. Qed.

(** No entry that passes the loader's test is called [index.html]. *)
Lemma index_html_not_org : JS.includes (js ".org") index_html = false.
Proof. reflexivity. Qed.

(** C5, amended.  For every source path P whose base name is exactly
    [index.html], the path resolver returns P unchanged as the output
    path, and the href that lines 103-104 compute from it is [dir(P)],
    the directory component of P as [path.parse] gives it, and not
    [<dir(P)>/]: no separator is appended, and for P of the form
    [<d>/index.html] with a non-empty [d] the href is [d].  The loader
    computes hrefs only for [posts/<entry>] with an entry whose name
    contains [.org], and the base name of such a path is not
    [index.html]. *)
Theorem formatFilename_index_unchanged (P : jstring) :
  Path.base (Path.parse P) = index_html ->
  formatFilename P = P /\
  hrefOf P = Path.dir (Path.parse P) /\
  hrefOf P <> Path.dir (Path.parse P) ++ [Path.slash] /\
  (forall d, d <> [] -> P = d ++ Path.slash :: index_html -> hrefOf P = d) /\
  (forall f, plainSegment f = true -> JS.includes (js ".org") f = true ->
             Path.base (Path.parse (Path.join [POSTS_DIR; f])) <> index_html).
Proof.
  intros Hbase.
  assert (Hhref : hrefOf P = Path.dir (Path.parse P))
    by (unfold hrefOf; now rewrite (formatFilename_index P Hbase)).
  split; [exact (formatFilename_index P Hbase)|]. split; [exact Hhref|]. split; [|split].
  - rewrite Hhref. intros H. apply (f_equal (@length N)) in H.
    rewrite length_app in H. simpl in H. lia.
  - intros d Hd HP. rewrite Hhref, HP.
    apply parse_dir_snoc; auto using index_html_not_nil, index_html_no_slash.
  - intros f Hf Horg. rewrite (join_posts_entry f Hf).
    destruct (plainSegment_spec f Hf) as (Hne & _ & _ & Hslash).
    destruct (parse_dir_snoc (js "posts") f) as [_ ->]; [discriminate|assumption..|].
    intros ->. rewrite index_html_not_org in Horg. discriminate Horg.
Qed.

Lemma formatFilename_index_unchanged_witness :
  formatFilename (js "build/index.html") = js "build/index.html" /\
  hrefOf (js "build/index.html") = js "build".
Proof.
  destruct (formatFilename_index_unchanged (js "build/index.html") eq_refl)
    as (Hout & _ & _ & Hd & _).
  split; [exact Hout|].
  apply (Hd (js "build")); [discriminate|reflexivity].
Defined.

(** ** Runs of the script *)

Section RunFacts.

Variable X : Collaborators.

Implicit Types (tr : list event) (text page : jstring).

Lemma bind_run {A B : Type} (m : M A) (f : A -> M B) tr :
  (m ≫= f) tr = match m tr with
                 | (Ok a, tr') => f a tr'
                 | (Throw e, tr') => (Throw e, tr')
                 end.
Proof. reflexivity. Qed.

Lemma emit_then {B : Type} (ev : event) (k : M B) tr :
  (emit ev ;; k) tr = k (tr ++ [ev]).
Proof. reflexivity. Qed.

Lemma written_app tr1 tr2 : written (tr1 ++ tr2) = written tr1 ++ written tr2.
Proof. apply flat_map_app. Qed.

(** *** The minifier callback *)

Lemma minifyJS_throw text e tr :
  error (minifyJs X text) = Some e ->
  minifyJS X text tr
  = (Throw (MinifyError e), tr ++ warningLog X text ++ [ConsoleLog text]).
Proof.
  intros He. unfold minifyJS, warningLog. rewrite bind_run, He.
  destruct (warnings (minifyJs X text)) as [ws|].
  - unfold emit. rewrite bind_run. unfold throw. now rewrite <- app_assoc.
  - unfold mret, M_ret. rewrite bind_run. reflexivity.
Qed.

Lemma minifyJS_return text tr :
  accepted X text ->
  minifyJS X text tr = (Ok (code (minifyJs X text)), tr ++ warningLog X text).
Proof.
  intros He. unfold minifyJS, warningLog. rewrite bind_run, He.
  destruct (warnings (minifyJs X text)) as [ws|].
  - reflexivity.
  - unfold mret, M_ret. now rewrite app_nil_r.
Qed.

Lemma mapM_minifyJS_return (scripts : list jstring) tr :
  Forall (accepted X) scripts ->
  mapM (minifyJS X) scripts tr
  = (Ok (List.map (fun text => code (minifyJs X text)) scripts),
     tr ++ flat_map (warningLog X) scripts).
Proof.
  intros Hall. revert tr. induction Hall as [|text scripts Ht _ IH]; intros tr.
  - simpl. unfold mret, M_ret. now rewrite app_nil_r.
  - cbn [mapM]. rewrite bind_run, (minifyJS_return text tr Ht).
    rewrite bind_run, IH. unfold mret, M_ret. simpl. now rewrite <- app_assoc.
Qed.

Lemma mapM_minifyJS_throw (before after : list jstring) text e tr :
  Forall (accepted X) before ->
  error (minifyJs X text) = Some e ->
  mapM (minifyJS X) (before ++ text :: after) tr
  = (Throw (MinifyError e),
     tr ++ flat_map (warningLog X) before ++ warningLog X text ++ [ConsoleLog text]).
Proof.
  intros Hall He. revert tr. induction Hall as [|t before Ht _ IH]; intros tr.
  - cbn [app mapM flat_map]. now rewrite bind_run, (minifyJS_throw text e tr He).
  - cbn [app mapM flat_map]. rewrite bind_run, (minifyJS_return t tr Ht).
    rewrite bind_run, IH. now rewrite <- !app_assoc.
Qed.

(** Either every script is accepted or there is a first rejected one. *)
Lemma first_rejected (scripts : list jstring) :
  Forall (accepted X) scripts \/
  exists before text after e,
    scripts = before ++ text :: after /\ Forall (accepted X) before /\
    error (minifyJs X text) = Some e.
Proof.
  induction scripts as [|t scripts IH]; [left; constructor|].
  destruct (error (minifyJs X t)) as [e|] eqn:E.
  - right. exists [], t, scripts, e. repeat split; [constructor|assumption].
  - destruct IH as [IH|(before & text & after & e & -> & Hb & He)].
    + left. now constructor.
    + right. exists (t :: before), text, after, e. repeat split; [|assumption].
      now constructor.
Qed.

(** *** optimizeHtml *)

Lemma optimizeHtml_return page tr :
  Forall (accepted X) (scriptsOf X (highlightHtml X page)) ->
  optimizeHtml X page tr
  = (Ok (optimized X page),
     tr ++ flat_map (warningLog X) (scriptsOf X (highlightHtml X page))).
Proof.
  intros Hall. unfold optimizeHtml, htmlMinifier_minify.
  rewrite bind_run, (mapM_minifyJS_return _ tr Hall). reflexivity.
Qed.

Lemma optimizeHtml_throw page before text after e tr :
  scriptsOf X (highlightHtml X page) = before ++ text :: after ->
  Forall (accepted X) before ->
  error (minifyJs X text) = Some e ->
  optimizeHtml X page tr
  = (Throw (MinifyError e),
     tr ++ flat_map (warningLog X) before ++ warningLog X text ++ [ConsoleLog text]).
Proof.
  intros Hs Hall He. unfold optimizeHtml, htmlMinifier_minify.
  rewrite bind_run, Hs, (mapM_minifyJS_throw before after text e tr Hall He).
  reflexivity.
Qed.

Lemma written_warningLog text : written (warningLog X text) = [].
Proof. unfold warningLog. now destruct (warnings _). Qed.

Lemma written_warningLogs (scripts : list jstring) :
  written (flat_map (warningLog X) scripts) = [].
Proof.
  induction scripts as [|t scripts IH]; [reflexivity|].
  simpl. now rewrite written_app, written_warningLog, IH.
Qed.

(** *** write *)

Lemma write_return filename content tr :
  Forall (accepted X) (scriptsOf X (highlightHtml X content)) ->
  write X filename content tr
  = (Ok tt,
     tr ++ writeHeader filename
        ++ flat_map (warningLog X) (scriptsOf X (highlightHtml X content))
        ++ [WriteFileSync (outputPath filename) (optimized X content)]).
Proof.
  intros Hall. unfold write. fold (outputPath filename).
  rewrite !emit_then, bind_run, (optimizeHtml_return content _ Hall).
  unfold emit, writeHeader. now rewrite <- !app_assoc.
Qed.

Lemma write_throw filename content before text after e tr :
  scriptsOf X (highlightHtml X content) = before ++ text :: after ->
  Forall (accepted X) before ->
  error (minifyJs X text) = Some e ->
  write X filename content tr
  = (Throw (MinifyError e),
     tr ++ writeHeader filename
        ++ flat_map (warningLog X) before ++ warningLog X text ++ [ConsoleLog text]).
Proof.
  intros Hs Hall He. unfold write. fold (outputPath filename).
  rewrite !emit_then, bind_run.
  rewrite (optimizeHtml_throw content before text after e _ Hs Hall He).
  unfold writeHeader. now rewrite <- !app_assoc.
Qed.

(** A completed [write] adds one file to the written ones, an
    aborted [write] none. *)
Lemma write_written filename content tr r tr' :
  write X filename content tr = (r, tr') ->
  written tr' = written tr ++
    match r with
    | Ok _ => [(outputPath filename, optimized X content)]
    | Throw _ => []
    end.
Proof.
  destruct (first_rejected (scriptsOf X (highlightHtml X content)))
    as [Hall|(before & text & after & e & Hs & Hb & He)].
  - rewrite (write_return filename content tr Hall).
    intros H. apply pair_equal_spec in H as [<- <-].
    rewrite !written_app, written_warningLogs. reflexivity.
  - rewrite (write_throw filename content before text after e tr Hs Hb He).
    intros H. apply pair_equal_spec in H as [<- <-].
    rewrite !written_app, written_warningLogs, written_warningLog. reflexivity.
Qed.

End RunFacts.

Section BuildFacts.

Variable X : Collaborators.

Implicit Types (tr : list event) (posts data : list PostData).

Lemma seq_run {B : Type} (m : M unit) (k : M B) tr :
  (m ;; k) tr = match m tr with
                | (Ok _, tr') => k tr'
                | (Throw e, tr') => (Throw e, tr')
                end.
Proof. reflexivity. Qed.

(** [genPosts] writes the pages of the documents in list order, and
    stops at the first page that cannot be written. *)
Lemma genPosts_written posts tr r tr' :
  genPosts X posts tr = (r, tr') ->
  match r with
  | Ok _ => written tr' = written tr ++ List.map (postPage X) posts
  | Throw _ =>
      exists k, written tr' = written tr ++ List.map (postPage X) (firstn k posts)
  end.
Proof.
  unfold genPosts. revert tr. induction posts as [|post posts IH]; intros tr.
  - cbn [forOf]. intros H. apply pair_equal_spec in H as [<- <-].
    simpl. now rewrite app_nil_r.
  - cbn [forOf]. rewrite seq_run.
    destruct (write X (fullpath post) _ tr) as [[u|e] tr1] eqn:Hw;
      apply write_written in Hw.
    + intros Hrest. apply IH in Hrest. destruct r as [u'|e'].
      * rewrite Hrest, Hw, <- app_assoc. reflexivity.
      * destruct Hrest as [k Hk]. exists (S k).
        rewrite Hk, Hw, <- app_assoc. reflexivity.
    + intros H. apply pair_equal_spec in H as [<- <-].
      exists 0%nat. exact Hw.
Qed.

Lemma genIndex_written posts tr r tr' :
  genIndex X posts tr = (r, tr') ->
  written tr' = written tr ++
    match r with Ok _ => [indexPage X posts] | Throw _ => [] end.
Proof. apply write_written. Qed.

(** *** The document loader *)

Lemma postsLoop_return names data0 tr data tr' :
  postsLoop X names data0 tr = (Ok data, tr') ->
  exists added,
    data = data0 ++ added /\
    Forall2 (documentOf X) (List.filter isOrg names) added /\
    tr' = tr ++ List.map skipLine (List.filter (fun f => negb (isOrg f)) names).
Proof.
  revert data0 tr. induction names as [|f names IH]; intros data0 tr.
  - cbn [postsLoop]. intros H. apply pair_equal_spec in H as [[= <-] <-].
    exists []. rewrite !app_nil_r. repeat split. constructor.
  - cbn [postsLoop List.filter]. fold (isOrg f). destruct (isOrg f) eqn:Hf; cbn [negb].
    + rewrite bind_run. unfold lift at 1.
      destruct (compileOrgFile X (Path.join [POSTS_DIR; f])) as [compiled|e] eqn:Hc;
        [|intros H; apply pair_equal_spec in H as [[=] _]].
      intros Hrest. apply IH in Hrest as (added & -> & Hdocs & ->).
      eexists (_ :: added). rewrite <- app_assoc. split; [reflexivity|].
      split; [|reflexivity]. constructor; [|assumption].
      exists compiled. split; [assumption|reflexivity].
    + rewrite emit_then. intros Hrest.
      apply IH in Hrest as (added & -> & Hdocs & ->).
      exists added. rewrite <- app_assoc. repeat split. assumption.
Qed.

(** The loader prints and does nothing else, whether it returns or
    throws. *)
Lemma postsLoop_prints names data0 tr r tr' :
  postsLoop X names data0 tr = (r, tr') ->
  exists lines, tr' = tr ++ List.map ConsoleLog lines.
Proof.
  revert data0 tr. induction names as [|f names IH]; intros data0 tr.
  - cbn [postsLoop]. intros H. apply pair_equal_spec in H as [_ <-].
    exists []. now rewrite app_nil_r.
  - cbn [postsLoop]. destruct (negb _).
    + rewrite emit_then. intros Hrest. apply IH in Hrest as [lines ->].
      exists ((js "Skipping " ++ f) :: lines). now rewrite <- app_assoc.
    + rewrite bind_run. unfold lift at 1.
      destruct (compileOrgFile X (Path.join [POSTS_DIR; f])) as [compiled|e].
      * apply IH.
      * intros H. apply pair_equal_spec in H as [_ <-].
        exists []. now rewrite app_nil_r.
Qed.

Lemma written_prints (lines : list jstring) : written (List.map ConsoleLog lines) = [].
Proof. induction lines; [reflexivity|assumption]. Qed.

Lemma filename_documentOf names added :
  Forall2 (documentOf X) names added -> List.map filename added = names.
Proof.
  induction 1 as [|f post names added (compiled & _ & ->) _ IH]; [reflexivity|].
  simpl. now rewrite IH.
Qed.

End BuildFacts.

(** ** Document loader *)

Lemma endsWith_includes (needle s : jstring) :
  JS.endsWith needle s = true -> JS.includes needle s = true.
Proof.
  unfold JS.endsWith, JS.includes. intros H.
  apply startsWith_spec in H as [b Hb].
  apply (f_equal (@rev N)) in Hb. rewrite rev_involutive, rev_app_distr, rev_involutive in Hb.
  apply negb_true_iff, Z.eqb_neq. intros Hidx.
  apply indexOf_absent in Hidx. apply Hidx.
  exists (rev b), []. now rewrite app_nil_r.
Qed.

(** C6, evaluated on a posts directory that holds a document, the
    backup copy [notes.org.bak] of a document and a file that is no
    document.  The claim: an entry is taken into the build if and only
    if [.org] is its extension.  The loader tests whether the name
    contains [.org]: it takes [notes.org.bak], whose extension is
    [.bak], into the Document list, and skips [README.md] only. *)
Lemma postsData_takes_org_bak :
  let X := demo threeEntries helloOrg in
  exists data tr,
    postsData X [] = (Ok data, tr) /\
    List.map filename data = [js "hello.org"; js "notes.org.bak"] /\
    printed tr = [js "Skipping README.md"] /\
    Path.ext (Path.parse (js "notes.org.bak")) = js ".bak" /\
    JS.endsWith (js ".org") (js "notes.org.bak") = false.
Proof.
  intros X. destruct (postsData X []) as [r tr] eqn:E.
  vm_compute in E. apply pair_equal_spec in E as [<- <-].
  eexists _, _. split; [reflexivity|]. vm_compute. repeat split.
Qed.

(** The test of the loader as the code has it.  Whenever the loader
    returns, the Document list holds the entries whose name contains
    [.org], in directory order, the entries with [.org] as their
    extension among them, and the loader has printed the line
    [Skipping <filename>] for every other entry. *)
Theorem postsData_includes_org (X : Collaborators) (tr0 tr : list event)
  (data : list PostData) :
  postsData X tr0 = (Ok data, tr) ->
  let names := readdirSync X POSTS_DIR in
  List.map filename data = List.filter (JS.includes (js ".org")) names /\
  tr = tr0 ++ List.map skipLine
               (List.filter (fun f => negb (JS.includes (js ".org") f)) names) /\
  (forall f, In f names ->
     (In f (List.map filename data) <-> JS.includes (js ".org") f = true)) /\
  (forall f, In f names -> JS.endsWith (js ".org") f = true ->
     In f (List.map filename data)).
Proof.
  intros Hrun names. unfold postsData in Hrun. fold names in Hrun.
  apply postsLoop_return in Hrun as (added & -> & Hdocs & ->).
  apply filename_documentOf in Hdocs. cbn [app].
  assert (Hiff : forall f, In f names ->
            (In f (List.map filename added) <-> JS.includes (js ".org") f = true)).
  { intros f Hf. rewrite Hdocs, filter_In. unfold isOrg. tauto. }
  repeat split; try assumption; try (now apply Hiff).
  intros f Hf Hext. apply Hiff; [assumption|]. now apply endsWith_includes.
Qed.

Lemma postsData_includes_org_witness :
  let X := demo threeEntries helloOrg in
  let run := postsData X [] in
  List.map filename (match fst run with Ok data => data | Throw _ => [] end)
  = [js "hello.org"; js "notes.org.bak"].
Proof.
  intros X run.
  destruct run as [[data|e] tr] eqn:E; [|vm_compute in E; discriminate E].
  cbn [fst]. rewrite (proj1 (postsData_includes_org X [] tr data E)). reflexivity.
Defined.

(** ** Orchestration *)

Section OrderFacts.

Variable X : Collaborators.

(** The loader writes no file. *)
Lemma postsData_writes_nothing r logs :
  postsData X [] = (r, logs) -> written logs = [].
Proof.
  unfold postsData. intros Hload.
  apply postsLoop_prints in Hload as [lines ->]. apply written_prints.
Qed.

(** Once the documents are loaded, the script makes the asset
    directory, writes the font stylesheet, and generates the pages. *)
Lemma build_after_load data logs :
  postsData X [] = (Ok data, logs) ->
  build X []
  = (genPosts X data ;; genIndex X data)
      (logs ++ [MkdirSync (js "build/assets");
                WriteFileSync (js "build/assets/fonts.css") (fontsCss X)]).
Proof.
  intros Hload. unfold build. rewrite bind_run, Hload, emit_then.
  unfold compileFontCss. now rewrite emit_then, <- app_assoc.
Qed.

(** A run that aborts has written the font stylesheet and the pages of
    the first documents at most, never the index page. *)
Lemma build_aborted_written e tr :
  build X [] = (Throw e, tr) ->
  written tr = [] \/
  exists data logs k,
    postsData X [] = (Ok data, logs) /\
    written tr = fontsFile X :: List.map (postPage X) (firstn k data).
Proof.
  destruct (postsData X []) as [[data|e'] logs] eqn:Hload.
  - rewrite (build_after_load data logs Hload), seq_run.
    assert (Hlogs := postsData_writes_nothing _ _ Hload).
    match goal with |- context [genPosts X data ?t] => set (tr0 := t) end.
    assert (Htr0 : written tr0 = [fontsFile X])
      by (unfold tr0; rewrite written_app, Hlogs; reflexivity).
    destruct (genPosts X data tr0) as [[u|e0] tr1] eqn:Hposts;
      apply genPosts_written in Hposts.
    + intros Hindex. apply genIndex_written in Hindex. right.
      exists data, logs, (length data). split; [reflexivity|].
      now rewrite Hindex, Hposts, Htr0, firstn_all, app_nil_r.
    + intros H. apply pair_equal_spec in H as [_ <-].
      destruct Hposts as [k Hk]. right. exists data, logs, k.
      split; [reflexivity|]. now rewrite Hk, Htr0.
  - unfold build. rewrite bind_run, Hload.
    intros H. apply pair_equal_spec in H as [_ <-]. left.
    exact (postsData_writes_nothing _ _ Hload).
Qed.

End OrderFacts.

(** C7, as stated, fails on a posts directory holding the one document
    [hello.org]: the run completes, the document page is the second
    file written and the index page the third and last. *)
Lemma build_writes_index_after_post :
  let X := demo [js "hello.org"] helloOrg in
  let paths := List.map fst (written (snd (build X []))) in
  fst (build X []) = Ok tt /\
  paths = [js "build/assets/fonts.css"; js "build/posts/hello/index.html";
           js "build/index.html"] /\
  position (js "build/posts/hello/index.html") paths = Some 1%nat /\
  position (js "build/index.html") paths = Some 2%nat.
Proof. vm_compute. repeat split. Qed.

(** C7, amended.  In every build run that completes, the orchestrator
    renders and writes the per-document pages first, one per Document
    in list order, and renders and writes the index page (from the full
    Document list) after them, as the last file of the run. *)
Theorem build_writes_index_last (X : Collaborators) (tr : list event) :
  build X [] = (Ok tt, tr) ->
  exists data logs,
    postsData X [] = (Ok data, logs) /\
    written tr = fontsFile X :: List.map (postPage X) data ++ [indexPage X data].
Proof.
  intros Hrun.
  destruct (postsData X []) as [[data|e] logs] eqn:Hload.
  - exists data, logs. split; [reflexivity|].
    rewrite (build_after_load X data logs Hload), seq_run in Hrun.
    assert (Hlogs := postsData_writes_nothing X _ _ Hload).
    destruct (genPosts X data _) as [[u|e] tr1] eqn:Hposts in Hrun.
    + apply genPosts_written in Hposts. apply genIndex_written in Hrun.
      rewrite Hrun, Hposts, written_app, Hlogs, <- app_assoc. reflexivity.
    + apply pair_equal_spec in Hrun as [[=] _].
  - unfold build in Hrun. rewrite bind_run, Hload in Hrun.
    apply pair_equal_spec in Hrun as [[=] _].
Qed.

Lemma build_writes_index_last_witness :
  let X := demo threeEntries helloOrg in
  exists data logs,
    postsData X [] = (Ok data, logs) /\
    written (snd (build X []))
    = fontsFile X :: List.map (postPage X) data ++ [indexPage X data].
Proof.
  intros X. apply (build_writes_index_last X (snd (build X []))).
  vm_compute. reflexivity.
Defined.

(** ** Minifier errors *)

Section AbortFacts.

Variable X : Collaborators.

Implicit Types (tr : list event) (page text : jstring).

Lemma rejected_first page :
  rejectedPage X page ->
  exists before text after e,
    scriptsOf X (highlightHtml X page) = before ++ text :: after /\
    Forall (accepted X) before /\ error (minifyJs X text) = Some e.
Proof.
  intros Hrej.
  destruct (first_rejected X (scriptsOf X (highlightHtml X page))) as [Hall|H];
    [|exact H].
  exfalso. unfold rejectedPage in Hrej. apply List.Exists_exists in Hrej as (t & Hin & Ht).
  rewrite List.Forall_forall in Hall. exact (Ht (Hall t Hin)).
Qed.

(** [write] on a rejected page: the error of the first rejected
    script is thrown, the text of that script is the last line
    printed, and no file is written. *)
Lemma write_rejected page filename tr :
  rejectedPage X page ->
  exists e text logs,
    error (minifyJs X text) = Some e /\
    In text (scriptsOf X (highlightHtml X page)) /\
    write X filename page tr = (Throw (MinifyError e), tr ++ logs ++ [ConsoleLog text]) /\
    written logs = [].
Proof.
  intros Hrej.
  destruct (rejected_first page Hrej) as (before & text & after & e & Hs & Hb & He).
  exists e, text,
    (writeHeader filename ++ flat_map (warningLog X) before ++ warningLog X text).
  split; [assumption|]. split; [rewrite Hs; apply in_elt|]. split.
  - rewrite (write_throw X filename page before text after e tr Hs Hb He).
    now rewrite <- !app_assoc.
  - now rewrite !written_app, written_warningLogs, written_warningLog.
Qed.

Lemma genPosts_rejected (posts : list PostData) tr :
  Exists (fun post => rejectedPage X (makePost X post (defaults X (Some post)))) posts ->
  exists e tr', genPosts X posts tr = (Throw (MinifyError e), tr').
Proof.
  unfold genPosts. intros Hex. revert tr.
  induction Hex as [post posts Hrej|post posts _ IH]; intros tr; cbn [forOf];
    rewrite seq_run.
  - destruct (write_rejected _ (fullpath post) tr Hrej) as (e & text & logs & _ & _ & -> & _).
    eauto.
  - destruct (first_rejected X
                (scriptsOf X (highlightHtml X (makePost X post (defaults X (Some post))))))
      as [Hall|(before & text & after & e & Hs & Hb & He)].
    + rewrite (write_return X _ _ tr Hall). apply IH.
    + rewrite (write_throw X _ _ before text after e tr Hs Hb He). eauto.
Qed.

(** A rejected page anywhere in the site aborts the run. *)
Lemma build_rejected (data : list PostData) (logs : list event) :
  postsData X [] = (Ok data, logs) ->
  Exists (fun post => rejectedPage X (makePost X post (defaults X (Some post)))) data
  \/ rejectedPage X (makeIndex X data (defaults X None)) ->
  exists e tr, build X [] = (Throw (MinifyError e), tr).
Proof.
  intros Hload Hrej. unfold build. rewrite bind_run, Hload, emit_then.
  unfold compileFontCss. rewrite emit_then, seq_run.
  match goal with |- context [genPosts X data ?t] => set (tr0 := t) end.
  destruct Hrej as [Hposts|Hindex].
  - destruct (genPosts_rejected data tr0 Hposts) as (e & tr' & ->). eauto.
  - destruct (genPosts X data tr0) as [[u|e] tr1] eqn:Hposts.
    + unfold genIndex.
      destruct (write_rejected _ (js "index.html") tr1 Hindex)
        as (e & text & logs' & _ & _ & -> & _).
      eauto.
    + destruct (genPosts_written X data tr0 (Throw e) tr1 Hposts) as [k Hk].
      assert (Hmin : exists e', e = MinifyError e'); [|destruct Hmin as [e' ->]; eauto].
      clear Hk. revert Hposts. unfold genPosts. generalize tr0. clear.
      induction data as [|post data IH]; intros tr0; cbn [forOf].
      * intros [=].
      * rewrite seq_run.
        destruct (first_rejected X
                    (scriptsOf X (highlightHtml X (makePost X post (defaults X (Some post))))))
          as [Hall|(before & text & after & e0 & Hs & Hb & He)].
        -- rewrite (write_return X _ _ tr0 Hall). apply IH.
        -- rewrite (write_throw X _ _ before text after e0 tr0 Hs Hb He).
           intros [= <- _]. eauto.
Qed.

End AbortFacts.

(** C8.  [optimizeHtml] highlights the page first and minifies the
    highlighted page.  When the minifier reports an error for a script,
    the callback prints its warnings if it has any, prints the text of
    the script and throws the error; nothing catches it, so [write]
    throws without writing the file and the run of the whole script
    aborts.  When the minifier reports warnings and no error, the
    callback prints the warnings and returns the minified code, and a
    page whose scripts are all accepted is written. *)
Theorem minifier_error_aborts (X : Collaborators) :
  (forall page,
      optimizeHtml X page
      = htmlMinifier_minify X (highlightHtml X page) (minifyJS X)) /\
  (forall text e tr,
      error (minifyJs X text) = Some e ->
      minifyJS X text tr
      = (Throw (MinifyError e), tr ++ warningLog X text ++ [ConsoleLog text])) /\
  (forall text ws tr,
      error (minifyJs X text) = None ->
      warnings (minifyJs X text) = Some ws ->
      minifyJS X text tr
      = (Ok (code (minifyJs X text)), tr ++ [ConsoleLogWarnings ws])) /\
  (forall page filename tr,
      rejectedPage X page ->
      exists e text logs,
        error (minifyJs X text) = Some e /\
        In text (scriptsOf X (highlightHtml X page)) /\
        write X filename page tr
        = (Throw (MinifyError e), tr ++ logs ++ [ConsoleLog text]) /\
        written logs = []) /\
  (forall page filename tr,
      Forall (accepted X) (scriptsOf X (highlightHtml X page)) ->
      write X filename page tr
      = (Ok tt,
         tr ++ writeHeader filename
            ++ flat_map (warningLog X) (scriptsOf X (highlightHtml X page))
            ++ [WriteFileSync (outputPath filename) (optimized X page)])) /\
  (forall data logs,
      postsData X [] = (Ok data, logs) ->
      Exists (fun post => rejectedPage X (makePost X post (defaults X (Some post)))) data
      \/ rejectedPage X (makeIndex X data (defaults X None)) ->
      exists e tr, build X [] = (Throw (MinifyError e), tr)).
Proof.
  split; [reflexivity|]. split; [apply minifyJS_throw|]. split.
  { intros text ws tr He Hw. rewrite (minifyJS_return X text tr He).
    unfold warningLog. now rewrite Hw. }
  split; [intros page filename tr; now apply write_rejected|].
  split; [intros page filename tr; apply write_return|].
  apply build_rejected.
Qed.

Lemma minifier_error_aborts_witness :
  let X := demo [js "hello.org"] brokenOrg in
  (exists e tr, build X [] = (Throw (MinifyError e), tr)) /\
  minifyJS X (js "<script>f(") []
  = (Throw (MinifyError (js "SyntaxError")), [ConsoleLog (js "<script>f(")]) /\
  minifyJS X (js "<script>eval(x)") []
  = (Ok (js "<script>eval(x)"), [ConsoleLogWarnings [js "eval"]]).
Proof.
  intros X.
  assert (Hload : exists data logs,
             postsData X [] = (Ok data, logs) /\
             Exists (fun post => rejectedPage X (makePost X post (defaults X (Some post))))
               data).
  { eexists _, _. split; [vm_compute; reflexivity|].
    apply Exists_cons_hd. unfold rejectedPage. vm_compute.
    apply Exists_cons_hd. discriminate. }
  destruct Hload as (data & logs & Hload & Hrej).
  destruct (minifier_error_aborts X) as (_ & Hthrow & Hwarn & _ & _ & Hbuild).
  split; [|split].
  - apply (Hbuild data logs Hload). left. exact Hrej.
  - apply (Hthrow (js "<script>f(") (js "SyntaxError") []). reflexivity.
  - apply (Hwarn (js "<script>eval(x)") [js "eval"] []); reflexivity.
Defined.

Lemma compileOrgFile_without_separator_witness :
  let X := demo [js "hello.org"] plainOrg in
  exists metadata,
    parseMetadata (js "title: Hi" ++ newline :: js "k:v") = Ok metadata /\
    compileOrgFile X (js "posts/hello.org")
    = Ok (mkOrg (js "<p>e: Hi" ++ newline :: js "k:v!</p>") metadata).
Proof.
  intros X. apply (compileOrgFile_without_separator X (js "posts/hello.org")).
  - apply indexOf_absent. reflexivity.
  - repeat constructor; vm_compute; tauto.
Defined.

(** * Further properties of the script *)

(** ** More on the string methods *)

Section MoreStringFacts.

Implicit Types (s a b piece needle : jstring) (pieces : list jstring) (sep c : N).

(** No piece of a split contains the separator. *)
Lemma split_pieces_free sep s piece :
  In piece (JS.split sep s) -> ~ In sep piece.
Proof.
  revert piece. induction s as [|c s IH]; intros piece.
  - simpl. intros [<-|[]] [].
  - destruct (N.eqb_spec c sep) as [->|Hc].
    + simpl. rewrite N.eqb_refl. intros [<-|Hin]; [intros []|now apply IH].
    + destruct (split_cons_other sep c s Hc) as (p & ps & E1 & E2).
      rewrite E2. rewrite E1 in IH. intros [<-|Hin].
      * intros [H|H]; [congruence|]. apply (IH p); [now left|assumption].
      * apply IH. now right.
Qed.

(** The code units of a piece are code units of the string. *)
Lemma split_pieces_sub sep s piece c :
  In piece (JS.split sep s) -> In c piece -> In c s.
Proof.
  revert piece. induction s as [|x s IH]; intros piece.
  - simpl. intros [<-|[]] [].
  - destruct (N.eqb_spec x sep) as [->|Hx].
    + simpl. rewrite N.eqb_refl. intros [<-|Hin]; [intros []|].
      intros Hc. right. now apply (IH piece).
    + destruct (split_cons_other sep x s Hx) as (p & ps & E1 & E2).
      rewrite E2. rewrite E1 in IH. intros [<-|Hin].
      * intros [->|Hc]; [now left|]. right. apply (IH p); [now left|assumption].
      * intros Hc. right. apply (IH piece); [now right|assumption].
Qed.

Lemma trimStart_sub s c : In c (JS.trimStart s) -> In c s.
Proof.
  induction s as [|x s IH]; [intros []|]. simpl.
  destruct (JS.isWhite x); [intros H; right; now apply IH|exact id].
Qed.

Lemma trim_sub s c : In c (JS.trim s) -> In c s.
Proof.
  unfold JS.trim. intros H.
  apply in_rev, trimStart_sub, in_rev, trimStart_sub in H. exact H.
Qed.

(** What [trimStart] returns does not start with white space, and it
    is what is left of the string after a prefix. *)
Lemma trimStart_spec s :
  exists white,
    s = white ++ JS.trimStart s /\
    match JS.trimStart s with [] => True | c :: _ => JS.isWhite c = false end.
Proof.
  induction s as [|x s (white & Hw & Hhead)].
  - exists []. split; [reflexivity|exact I].
  - simpl. destruct (JS.isWhite x) eqn:E.
    + exists (x :: white). split; [simpl; now rewrite <- Hw|exact Hhead].
    + exists []. split; [reflexivity|exact E].
Qed.

Lemma trimStart_fixed s :
  match s with [] => True | c :: _ => JS.isWhite c = false end ->
  JS.trimStart s = s.
Proof. destruct s as [|c s]; [reflexivity|]. simpl. now intros ->. Qed.

(** Trimming a trimmed string changes nothing. *)
Lemma trim_idempotent s : JS.trim (JS.trim s) = JS.trim s.
Proof.
  unfold JS.trim.
  destruct (trimStart_spec s) as (w1 & H1 & Hhead1).
  set (a := JS.trimStart s) in *.
  destruct (trimStart_spec (rev a)) as (w2 & H2 & Hhead2).
  set (b := JS.trimStart (rev a)) in *.
  assert (Ha : a = rev b ++ rev w2).
  { rewrite <- (rev_involutive a), H2, rev_app_distr. reflexivity. }
  assert (Hfix : JS.trimStart (rev b) = rev b).
  { apply trimStart_fixed. destruct (rev b) as [|c t] eqn:E; [exact I|].
    rewrite Ha in Hhead1. exact Hhead1. }
  rewrite Hfix, rev_involutive. now rewrite (trimStart_fixed b Hhead2).
Qed.

(** The position [indexOf] answers is at most the position of any
    occurrence of the needle. *)
Lemma indexOf_from_le i needle a b :
  0 <= i ->
  i <= JS.indexOf_from i needle (a ++ needle ++ b) <= i + Z.of_nat (length a).
Proof.
  revert i. induction a as [|c a IH]; intros i Hi.
  - assert (H : JS.startsWith needle (needle ++ b) = true)
      by (apply startsWith_spec; eauto).
    simpl app. destruct (needle ++ b) as [|x t]; simpl; rewrite H; simpl; lia.
  - change ((c :: a) ++ needle ++ b) with (c :: (a ++ needle ++ b)).
    cbn [JS.indexOf_from].
    destruct (JS.startsWith needle (c :: a ++ needle ++ b)).
    + simpl length. lia.
    + specialize (IH (i + 1) ltac:(lia)). simpl length. lia.
Qed.

(** [indexOf] answers the length of [h] exactly when the needle occurs
    right after [h] and nowhere earlier. *)
Lemma indexOf_first needle h t :
  JS.indexOf needle (h ++ needle ++ t) = Z.of_nat (length h)
  <-> (forall a b, h ++ needle ++ t = a ++ needle ++ b ->
                   (length h <= length a)%nat).
Proof.
  split.
  - intros Hidx a b Hab. rewrite Hab in Hidx.
    pose proof (indexOf_from_le 0 needle a b ltac:(lia)) as Hle.
    unfold JS.indexOf in Hidx. lia.
  - unfold JS.indexOf. generalize (Z.le_refl 0).
    change (Z.of_nat (length h)) with (0 + Z.of_nat (length h)).
    generalize 0 at 2 3 4 as i.
    induction h as [|c h IH]; intros i Hi Hmin.
    + assert (H : JS.startsWith needle (needle ++ t) = true)
        by (apply startsWith_spec; eauto).
      simpl app. destruct (needle ++ t) as [|x u]; simpl; rewrite H; simpl; lia.
    + change ((c :: h) ++ needle ++ t) with (c :: (h ++ needle ++ t)) in *.
      cbn [JS.indexOf_from].
      destruct (JS.startsWith needle (c :: h ++ needle ++ t)) eqn:E.
      * apply startsWith_spec in E as [b Hb].
        specialize (Hmin [] b Hb). simpl in Hmin. lia.
      * rewrite (IH (i + 1)); [simpl length; lia|lia|].
        intros a b Hab. specialize (Hmin (c :: a) b). simpl in Hmin.
        rewrite Hab in Hmin. specialize (Hmin eq_refl). lia.
Qed.

(** [slice(0, n)] of a string that starts with [n] code units [h]. *)
Lemma slice_prefix h t :
  JS.slice (h ++ t) 0 (Z.of_nat (length h)) = h.
Proof.
  unfold JS.slice, JS.clamp. rewrite length_app.
  destruct (Z.ltb_spec (Z.of_nat (length h)) 0); [lia|].
  change (0 <? 0) with false. cbv iota.
  replace (Z.min 0 _) with 0 by lia.
  replace (Z.min (Z.of_nat (length h)) _) with (Z.of_nat (length h)) by lia.
  rewrite Z.sub_0_r, Nat2Z.id. change (Z.to_nat 0) with 0%nat.
  change (skipn 0 (h ++ t)) with (h ++ t).
  rewrite List.firstn_app, List.firstn_all, Nat.sub_diag. simpl. apply app_nil_r.
Qed.

End MoreStringFacts.

(** ** More on the metadata parser *)

Section MoreMetadataFacts.

Implicit Types (str line key value v k : jstring) (data m : Metadata)
  (lines : list jstring).

Lemma reduce_app {A B : Type} (f : A -> B -> result A) (l1 l2 : list B) (init : A) :
  reduce f (l1 ++ l2) init
  = match reduce f l1 init with
    | Ok acc => reduce f l2 acc
    | Throw e => Throw e
    end.
Proof.
  revert init. induction l1 as [|x l1 IH]; intros init; [reflexivity|].
  simpl. destruct (f init x); [apply IH|reflexivity].
Qed.

(** The parser throws nothing but a [TypeError]. *)
Lemma reduce_lines_TypeError lines data e :
  reduce reducer (List.map (JS.split colon) lines) data = Throw e -> e = TypeError.
Proof.
  revert data. induction lines as [|line lines IH]; intros data; [discriminate|].
  simpl. destruct (JS.split colon line) as [|key [|value pieces]]; simpl;
    try (now intros [= <-]).
  apply IH.
Qed.

Lemma reduce_lines_entries (all lines : list jstring) data m :
  (forall line, In line lines -> In line all) ->
  (forall k v, data !! k = Some v -> entryOf all k v) ->
  reduce reducer (List.map (JS.split colon) lines) data = Ok m ->
  forall k v, m !! k = Some v -> entryOf all k v.
Proof.
  revert data. induction lines as [|line lines IH]; intros data Hsub Hdata.
  - simpl. now intros [= <-].
  - simpl. destruct (JS.split colon line) as [|key [|value pieces]] eqn:E;
      simpl; try discriminate.
    apply IH.
    + intros l Hl. apply Hsub. now right.
    + intros k v Hk. apply lookup_insert_Some in Hk as [[<- <-]|[_ Hk]].
      * exists line, value, pieces. split; [apply Hsub; now left|]. now split.
      * now apply Hdata.
Qed.

End MoreMetadataFacts.

(** X1.  Parsing a header block returns a mapping exactly when every
    line of the block contains a colon; on a block with a line without
    a colon, the empty block included, it throws a [TypeError]. *)
Theorem parseMetadata_returns_iff (str : jstring) :
  ((exists m, parseMetadata str = Ok m)
   <-> Forall (fun line => In colon line) (JS.split newline str)) /\
  (parseMetadata str = Throw TypeError
   <-> Exists (fun line => ~ In colon line) (JS.split newline str)) /\
  parseMetadata [] = Throw TypeError.
Proof.
  assert (Hdec : forall line : jstring, {In colon line} + {~ In colon line})
    by (intros line; apply in_dec, N.eq_dec).
  split; [|split; [|reflexivity]].
  - split; [|apply parseMetadata_ok].
    intros [m Hm].
    destruct (List.Forall_Exists_dec (fun line => In colon line) Hdec (JS.split newline str))
      as [Hall|Hex]; [assumption|].
    rewrite (parseMetadata_throw str Hex) in Hm. discriminate.
  - split; [|apply parseMetadata_throw].
    intros Hthrow.
    destruct (List.Forall_Exists_dec (fun line => In colon line) Hdec (JS.split newline str))
      as [Hall|Hex]; [|assumption].
    destruct (parseMetadata_ok str Hall) as [m Hm]. congruence.
Qed.

(** X2.  Parsing a block followed by one more line [key:rest] gives
    the mapping of the block with [key] bound to the trimmed text
    between the first and the second colon of the line: the new line
    overrides an earlier line with the same key and leaves the other
    keys as they were; the key is taken as it is, white space
    included. *)
Theorem parseMetadata_append_line (str key rest : jstring) (m : Metadata) :
  parseMetadata str = Ok m ->
  ~ In colon key ->
  ~ In newline (key ++ colon :: rest) ->
  let value := JS.trim (hd [] (JS.split colon rest)) in
  let m' := <[key := value]> m in
  parseMetadata (str ++ newline :: key ++ colon :: rest) = Ok m' /\
  m' !! key = Some value /\
  (forall k, k <> key -> m' !! k = m !! k).
Proof.
  intros Hm Hkey Hnl value m'. split; [|split].
  - unfold parseMetadata in *.
    rewrite split_app, (split_free newline _ Hnl), map_app, reduce_app, Hm.
    simpl. rewrite (split_first_piece colon key rest Hkey).
    unfold m', value.
    destruct (JS.split colon rest) as [|piece pieces] eqn:E;
      [exfalso; eapply split_not_nil; eauto|].
    reflexivity.
  - apply lookup_insert_eq.
  - intros k Hk. now apply lookup_insert_ne.
Qed.

Lemma parseMetadata_append_line_witness :
  let m' := <[js "title" := JS.trim (hd [] (JS.split colon (js " New")))]>
              ({[ js "title" := js "Old" ]} : Metadata) in
  parseMetadata (js "title: Old" ++ newline :: js "title" ++ colon :: js " New")
  = Ok m' /\
  m' !! js "title" = Some (js "New").
Proof.
  intros m'.
  destruct (parseMetadata_append_line (js "title: Old") (js "title") (js " New")
              {[ js "title" := js "Old" ]}) as (H & Hkey & _).
  - reflexivity.
  - absent.
  - absent.
  - split; [exact H|exact Hkey].
Defined.

(** X3.  Every entry of a parsed mapping comes from a line of the
    block: the key is the text before the first colon of that line and
    the value the trimmed text between its first and second colon.  So
    no key and no value contains a colon or a line break, and no value
    starts or ends with white space. *)
Theorem parseMetadata_entries (str k v : jstring) (m : Metadata) :
  parseMetadata str = Ok m ->
  m !! k = Some v ->
  (exists line value pieces,
      In line (JS.split newline str) /\
      JS.split colon line = k :: value :: pieces /\ v = JS.trim value) /\
  ~ In colon k /\ ~ In newline k /\
  ~ In colon v /\ ~ In newline v /\
  JS.trim v = v.
Proof.
  intros Hm Hk.
  assert (Hentry : entryOf (JS.split newline str) k v).
  { apply (reduce_lines_entries (JS.split newline str) (JS.split newline str) ∅ m);
      auto.
    intros k' v' H. now rewrite lookup_empty in H. }
  destruct Hentry as (line & value & pieces & Hline & Hsplit & ->).
  assert (Hkin : In k (JS.split colon line)) by (rewrite Hsplit; now left).
  assert (Hvin : In value (JS.split colon line)) by (rewrite Hsplit; right; now left).
  assert (Hlnl := split_pieces_free newline str line Hline).
  split; [exists line, value, pieces; auto|].
  split; [now apply (split_pieces_free colon line)|].
  split; [intros H; apply Hlnl; now apply (split_pieces_sub colon line k)|].
  split; [intros H; apply trim_sub in H;
          now apply (split_pieces_free colon line value)|].
  split; [|apply trim_idempotent].
  intros H. apply trim_sub in H. apply Hlnl.
  now apply (split_pieces_sub colon line value).
Qed.

Lemma parseMetadata_entries_witness :
  ~ In colon (js "2020-01-01 10") /\ JS.trim (js "2020-01-01 10") = js "2020-01-01 10".
Proof.
  destruct (parseMetadata_entries (js " date :  2020-01-01 10:30 ") (js " date ")
              (js "2020-01-01 10") {[ js " date " := js "2020-01-01 10" ]})
    as (_ & _ & _ & Hcolon & _ & Htrim).
  - vm_compute. reflexivity.
  - apply lookup_singleton_eq.
  - split; assumption.
Defined.

(** ** More on document compilation *)

Section MoreCompileFacts.

Variable X : Collaborators.

(** [compileOrgFile] on a file that holds [header], the separator and
    [body], the separator occurring nowhere earlier. *)
Lemma compileOrgFile_at_separator (path header body : jstring) :
  readFileSync X path = header ++ separator ++ body ->
  (forall a b, header ++ separator ++ body = a ++ separator ++ b ->
               (length header <= length a)%nat) ->
  compileOrgFile X path
  = match parseMetadata header with
    | Ok metadata => Ok (mkOrg (pandoc X body) metadata)
    | Throw e => Throw e
    end.
Proof.
  intros Hraw Hfirst. apply indexOf_first in Hfirst.
  unfold compileOrgFile. rewrite Hraw, Hfirst, slice_prefix.
  destruct (parseMetadata header) as [metadata|e]; [|reflexivity].
  rewrite separator_length, <- Nat2Z.inj_add, slice_to_end.
  rewrite skipn_app, skipn_all2, Nat.add_comm, Nat.add_sub by lia.
  change (skipn 5 (separator ++ body)) with body. reflexivity.
Qed.

Lemma compileOrgFile_TypeError (path : jstring) e :
  compileOrgFile X path = Throw e -> e = TypeError.
Proof.
  unfold compileOrgFile.
  destruct (parseMetadata _) as [metadata|e'] eqn:E; [discriminate|].
  intros [= <-]. exact (reduce_lines_TypeError _ _ _ E).
Qed.

End MoreCompileFacts.

(** X4.  A document file is cut at the first occurrence of the
    separator line: when the file holds a header, the separator and a
    body, and the separator occurs nowhere before the end of the
    header, the metadata are parsed from the header and the converter
    gets the body, intact even where it contains the separator again;
    compilation throws exactly when the header does not parse. *)
Theorem compileOrgFile_splits_at_first_separator
  (X : Collaborators) (path header body : jstring) :
  readFileSync X path = header ++ separator ++ body ->
  (forall a b, header ++ separator ++ body = a ++ separator ++ b ->
               (length header <= length a)%nat) ->
  (forall metadata,
      parseMetadata header = Ok metadata ->
      compileOrgFile X path = Ok (mkOrg (pandoc X body) metadata)) /\
  (forall e, parseMetadata header = Throw e -> compileOrgFile X path = Throw e).
Proof.
  intros Hraw Hfirst.
  rewrite (compileOrgFile_at_separator X path header body Hraw Hfirst).
  split; intros ? ->; reflexivity.
Qed.

Lemma compileOrgFile_splits_at_first_separator_witness :
  let X := demo [js "hello.org"] twoRulesOrg in
  compileOrgFile X (js "posts/hello.org")
  = Ok (mkOrg (pandoc X (js "above" ++ separator ++ js "below"))
          {[ js "title" := js "Hello" ]}).
Proof.
  intros X.
  apply (proj1 (compileOrgFile_splits_at_first_separator X (js "posts/hello.org")
                  (js "title: Hello") (js "above" ++ separator ++ js "below")
                  eq_refl
                  (proj1 (indexOf_first separator (js "title: Hello")
                            (js "above" ++ separator ++ js "below")) eq_refl))).
  vm_compute. reflexivity.
Defined.

(** X5.  A document whose header has an empty line (an empty header, a
    blank line between two fields, a line break before the separator)
    cannot be compiled: compilation throws a [TypeError]. *)
Theorem compileOrgFile_blank_header_line
  (X : Collaborators) (path header body : jstring) :
  readFileSync X path = header ++ separator ++ body ->
  (forall a b, header ++ separator ++ body = a ++ separator ++ b ->
               (length header <= length a)%nat) ->
  In [] (JS.split newline header) ->
  compileOrgFile X path = Throw TypeError.
Proof.
  intros Hraw Hfirst Hblank.
  rewrite (compileOrgFile_at_separator X path header body Hraw Hfirst).
  rewrite parseMetadata_throw; [reflexivity|].
  apply List.Exists_exists. exists []. split; [assumption|intros []].
Qed.

Lemma compileOrgFile_blank_header_line_witness :
  let X := demo [js "hello.org"] (separator ++ js "Hi") in
  compileOrgFile X (js "posts/hello.org") = Throw TypeError.
Proof.
  intros X.
  apply (compileOrgFile_blank_header_line X (js "posts/hello.org") [] (js "Hi") eq_refl).
  - intros a b _. apply Nat.le_0_l.
  - now left.
Defined.

(** ** More on the document loader *)

Section MoreLoaderFacts.

Variable X : Collaborators.

Lemma postsLoop_loadable names data0 tr :
  Forall (loadable X) names ->
  exists data tr', postsLoop X names data0 tr = (Ok data, tr').
Proof.
  intros Hall. revert data0 tr.
  induction Hall as [|f names Hf _ IH]; intros data0 tr.
  - cbn [postsLoop]. eexists _, _. reflexivity.
  - cbn [postsLoop]. fold (isOrg f). destruct (isOrg f) eqn:E; cbn [negb].
    + destruct (Hf E) as [compiled Hc].
      rewrite bind_run. unfold lift at 1. rewrite Hc. apply IH.
    + rewrite emit_then. apply IH.
Qed.

Lemma postsLoop_first_failure before f after e data0 tr :
  Forall (loadable X) before ->
  isOrg f = true ->
  compileOrgFile X (Path.join [POSTS_DIR; f]) = Throw e ->
  postsLoop X (before ++ f :: after) data0 tr
  = (Throw e, tr ++ List.map skipLine (List.filter (fun g => negb (isOrg g)) before)).
Proof.
  intros Hall Hf He. revert data0 tr.
  induction Hall as [|g before Hg _ IH]; intros data0 tr.
  - cbn [app postsLoop List.filter List.map]. fold (isOrg f). rewrite Hf. cbn [negb].
    rewrite bind_run. unfold lift at 1. rewrite He. now rewrite app_nil_r.
  - cbn [app postsLoop List.filter]. fold (isOrg g).
    destruct (isOrg g) eqn:E; cbn [negb].
    + destruct (Hg E) as [compiled Hc].
      rewrite bind_run. unfold lift at 1. rewrite Hc. apply IH.
    + rewrite emit_then, IH. cbn [List.map]. now rewrite <- app_assoc.
Qed.

Lemma documentOf_entries names added :
  Forall2 (documentOf X) names added ->
  Forall (fun post => In (filename post) names /\ documentOf X (filename post) post)
    added.
Proof.
  induction 1 as [|f post names added Hdoc _ IH]; constructor.
  - assert (Hf : filename post = f) by (destruct Hdoc as (c & _ & ->); reflexivity).
    rewrite Hf. split; [now left|assumption].
  - eapply List.Forall_impl; [|exact IH]. intros p [Hin Hp]. split; [now right|assumption].
Qed.

End MoreLoaderFacts.

(** X6.  The document loader returns exactly when the file of every
    entry whose name contains [.org] compiles.  Otherwise it throws
    the [TypeError] of the first such entry whose file does not
    compile, having printed the [Skipping] lines of the entries before
    that one and nothing else; the entries after it are not looked
    at. *)
Theorem postsData_returns_or_throws (X : Collaborators) (tr0 : list event) :
  ((exists data tr, postsData X tr0 = (Ok data, tr))
   <-> Forall (loadable X) (readdirSync X POSTS_DIR)) /\
  (forall before f after e,
      readdirSync X POSTS_DIR = before ++ f :: after ->
      Forall (loadable X) before ->
      isOrg f = true ->
      compileOrgFile X (Path.join [POSTS_DIR; f]) = Throw e ->
      e = TypeError /\
      postsData X tr0
      = (Throw TypeError,
         tr0 ++ List.map skipLine (List.filter (fun g => negb (isOrg g)) before))).
Proof.
  split.
  - split; [|apply postsLoop_loadable].
    intros (data & tr & Hrun). unfold postsData in Hrun.
    apply postsLoop_return in Hrun as (added & _ & Hdocs & _).
    apply List.Forall_forall. intros f Hf Horg.
    assert (Hin : In f (List.filter isOrg (readdirSync X POSTS_DIR)))
      by (apply filter_In; auto).
    clear Hf Horg. induction Hdocs as [|g post names added Hdoc _ IH]; [destruct Hin|].
    destruct Hin as [<-|Hin]; [|now apply IH].
    destruct Hdoc as (compiled & Hc & _). eauto.
  - intros before f after e Hnames Hall Hf He.
    assert (He' := compileOrgFile_TypeError X _ _ He). subst e.
    split; [reflexivity|]. unfold postsData. rewrite Hnames.
    now apply postsLoop_first_failure.
Qed.

Lemma postsData_returns_or_throws_witness :
  let X := demo [js "README.md"; js "hello.org"; js "LICENSE"] (js "hello") in
  postsData X [] = (Throw TypeError, [skipLine (js "README.md")]).
Proof.
  intros X.
  apply (proj2 (postsData_returns_or_throws X [])
           [js "README.md"] (js "hello.org") [js "LICENSE"] TypeError eq_refl).
  - constructor; [|constructor]. intros H. discriminate H.
  - reflexivity.
  - reflexivity.
Defined.

(** X7.  Every Document of the list the loader returns comes from an
    entry of the posts directory whose name contains [.org]: its
    filename is that entry, its fullpath is the joined path of the
    posts directory and the entry ([posts/<filename>] for an entry
    that is a plain file name), its href is computed from that
    fullpath, and its html and metadata are what compiling the file at
    the fullpath gives. *)
Theorem postsData_documents (X : Collaborators) (tr0 tr : list event)
  (data : list PostData) :
  postsData X tr0 = (Ok data, tr) ->
  Forall (fun post =>
            In (filename post) (readdirSync X POSTS_DIR) /\
            JS.includes (js ".org") (filename post) = true /\
            fullpath post = Path.join [POSTS_DIR; filename post] /\
            (plainSegment (filename post) = true ->
             fullpath post = js "posts" ++ Path.slash :: filename post) /\
            href post = hrefOf (fullpath post) /\
            compileOrgFile X (fullpath post) = Ok (mkOrg (html post) (metadata post)))
    data.
Proof.
  intros Hrun. unfold postsData in Hrun.
  apply postsLoop_return in Hrun as (added & -> & Hdocs & _). cbn [app].
  apply documentOf_entries in Hdocs.
  eapply List.Forall_impl; [|exact Hdocs]. intros post [Hin (compiled & Hc & Hpost)].
  apply filter_In in Hin as [Hin Horg].
  destruct post as [h f p hr md]. cbn [filename fullpath href html metadata] in *.
  injection Hpost as -> -> -> ->.
  repeat split; try assumption.
  - intros Hplain. now apply join_posts_entry.
  - rewrite Hc. now destruct compiled.
Qed.

Lemma postsData_documents_witness :
  let X := demo threeEntries helloOrg in
  Forall (fun post => fullpath post = js "posts" ++ Path.slash :: filename post)
    (match fst (postsData X []) with Ok data => data | Throw _ => [] end).
Proof.
  intros X.
  destruct (postsData X []) as [[data|e] tr] eqn:E; [|vm_compute in E; discriminate E].
  cbn [fst].
  eapply List.Forall_impl; [|exact (postsData_documents X [] tr data E)].
  intros post (Hin & _ & _ & Hplain & _). apply Hplain.
  change (In (filename post) threeEntries) in Hin.
  destruct Hin as [<-|[<-|[<-|[]]]]; reflexivity.
Defined.

(** ** More on paths *)

Section MorePathFacts.

Import Path.

Implicit Types (path x y f s e seg : jstring) (segs : list jstring).

(** [parse] on a file name that follows a non-empty directory. *)
Lemma parse_snoc x f :
  x <> [] -> f <> [] -> ~ In slash f ->
  parse (x ++ slash :: f)
  = mkParsed (match x with c0 :: _ => if isSlash c0 then [slash] else [] | [] => [] end)
      x f (snd (fileParts f)) (fst (fileParts f)).
Proof.
  intros Hx Hf Hslash. destruct x as [|c0 x']; [congruence|].
  change ((c0 :: x') ++ slash :: f) with (c0 :: (x' ++ slash :: f)).
  unfold parse, fileParts.
  set (y := if isSlash c0 then x' else c0 :: x').
  assert (Hscan : (if isSlash c0 then x' ++ slash :: f else c0 :: x' ++ slash :: f)
                  = y ++ slash :: f)
    by (unfold y; now destruct (isSlash c0)).
  rewrite Hscan, rev_app_distr. simpl rev. rewrite <- app_assoc. simpl app.
  assert (Hfree : Forall (fun u => isSlash u = false) (rev f)).
  { apply List.Forall_forall. intros u Hu. apply in_rev in Hu.
    unfold isSlash. apply N.eqb_neq. intros ->. contradiction. }
  assert (Hdrop : dropSlashes (rev f ++ slash :: rev y) = rev f ++ slash :: rev y).
  { destruct (rev f) as [|u rf] eqn:E.
    - apply (f_equal (@rev N)) in E. rewrite rev_involutive in E. contradiction.
    - apply dropSlashes_head. now inversion Hfree. }
  rewrite Hdrop, (break_app isSlash (rev f) slash (rev y) Hfree eq_refl).
  assert (Hdir : (if isSlash c0 then [slash] else []) ++ rev (rev y) = c0 :: x').
  { rewrite rev_involutive. unfold y. destruct (isSlash c0) eqn:E; [|reflexivity].
    apply N.eqb_eq in E. now subst c0. }
  rewrite Hdir, rev_involutive.
  rewrite (bool_decide_eq_false_2 (slash :: rev y = [])) by discriminate.
  cbn [negb orb]. 
  destruct (break isDot (rev f)) as [rpost [|d rpre]]; [reflexivity|].
  rewrite andb_true_r.
  destruct (bool_decide (rpre = []) || _); reflexivity.
Qed.

(** The name and the extension of [s.e]. *)
Lemma fileParts_stem s e :
  plainSegment s = true -> ~ In dot e ->
  fileParts (s ++ dot :: e) = (s, dot :: e).
Proof.
  intros Hs He. apply plainSegment_spec in Hs as (Hnil & Hdot & _ & _).
  unfold fileParts. rewrite rev_app_distr. simpl rev. rewrite <- app_assoc. simpl app.
  assert (Hfree : Forall (fun u => isDot u = false) (rev e)).
  { apply List.Forall_forall. intros u Hu. apply in_rev in Hu.
    unfold isDot. apply N.eqb_neq. intros ->. contradiction. }
  rewrite (break_app isDot (rev e) dot (rev s) Hfree eq_refl).
  rewrite (bool_decide_eq_false_2 (rev s = [])).
  2:{ intros H. apply (f_equal (@rev N)) in H. now rewrite rev_involutive in H. }
  rewrite (bool_decide_eq_false_2 (rev s = [dot])).
  2:{ intros H. apply (f_equal (@rev N)) in H. now rewrite rev_involutive in H. }
  cbn [orb andb]. now rewrite !rev_involutive.
Qed.

Lemma join_snoc_piece (sep : N) segs seg :
  JS.join sep (segs ++ [seg])
  = match segs with
    | [] => seg
    | _ :: _ => JS.join sep segs ++ sep :: seg
    end.
Proof.
  induction segs as [|p segs IH]; [reflexivity|].
  destruct segs as [|q segs]; [reflexivity|].
  change (JS.join sep ((p :: q :: segs) ++ [seg]))
    with (p ++ sep :: JS.join sep ((q :: segs) ++ [seg])).
  rewrite IH. change (JS.join sep (p :: q :: segs))
    with (p ++ sep :: JS.join sep (q :: segs)).
  now rewrite <- app_assoc.
Qed.

Lemma last_app_cons {A : Type} (l : list A) (c : A) (t : list A) (d : A) :
  List.last (l ++ c :: t) d = List.last (c :: t) d.
Proof.
  induction l as [|x l IH]; [reflexivity|].
  change ((x :: l) ++ c :: t) with (x :: (l ++ c :: t)).
  destruct (l ++ c :: t) eqn:E; [now destruct l|exact IH].
Qed.

(** The base name of [index.html] and of [z/index.html]. *)
Lemma parse_base_index z :
  base (parse index_html) = index_html /\
  base (parse (slash :: index_html)) = index_html /\
  base (parse (z ++ slash :: index_html)) = index_html.
Proof.
  split; [reflexivity|]. split; [reflexivity|].
  destruct z as [|c z]; [reflexivity|].
  apply parse_dir_snoc; auto using index_html_not_nil, index_html_no_slash.
Qed.

(** Normalizing a path whose last segment is [index.html] gives a path
    whose base name is [index.html]. *)
Lemma normalize_keeps_index pre :
  pre = [] \/ (exists x, pre = x ++ [slash]) ->
  base (parse (normalize (pre ++ index_html))) = index_html.
Proof.
  intros Hpre.
  assert (Hsplit : exists segs, JS.split slash (pre ++ index_html) = segs ++ [index_html]).
  { destruct Hpre as [->|[x ->]].
    - exists []. apply split_free, index_html_no_slash.
    - exists (JS.split slash x). rewrite <- app_assoc. simpl app.
      now rewrite split_app, (split_free slash index_html index_html_no_slash). }
  destruct Hsplit as [segs Hsplit].
  assert (Hstr : forall allow, exists kept,
             normalizeString (pre ++ index_html) allow
             = JS.join slash (kept ++ [index_html])).
  { intros allow. unfold normalizeString. rewrite Hsplit, fold_left_app. cbn [fold_left].
    rewrite (normalizeSegment_plain _ _ _ plainSegment_index_html). cbn [rev].
    eauto. }
  assert (Hlast : isSlash (List.last (pre ++ index_html) 0%N) = false).
  { unfold index_html. change (js "index.html") with (105%N :: js "ndex.html").
    rewrite last_app_cons. reflexivity. }
  unfold normalize.
  destruct (pre ++ index_html) as [|c0 tl] eqn:E.
  { apply app_eq_nil in E as [_ E]. discriminate E. }
  rewrite Hlast. destruct (Hstr (negb (isSlash c0))) as [kept ->].
  rewrite join_snoc_piece.
  destruct kept as [|k kept].
  - destruct (isSlash c0); apply (parse_base_index []).
  - set (z := JS.join slash (k :: kept)).
    destruct (z ++ slash :: index_html) as [|c t] eqn:Ez.
    { apply app_eq_nil in Ez as [_ Ez]. discriminate Ez. }
    rewrite <- Ez. destruct (isSlash c0).
    + apply (parse_base_index (slash :: z)).
    + apply (parse_base_index z).
Qed.

End MorePathFacts.

Section MoreResolverFacts.

Import Path.

Lemma join_ends_index d n :
  exists pre,
    (pre = [] \/ exists x, pre = x ++ [slash]) /\
    join [d; n; index_html] = normalize (pre ++ index_html).
Proof.
  unfold join. cbn [List.filter].
  rewrite (bool_decide_eq_false_2 (index_html = [])) by discriminate. cbn [negb].
  destruct d as [|c d], n as [|c' n].
  - rewrite !bool_decide_eq_true_2 by reflexivity. cbn [negb].
    exists []. split; [now left|reflexivity].
  - rewrite bool_decide_eq_true_2 by reflexivity.
    rewrite bool_decide_eq_false_2 by discriminate. cbn [negb].
    exists ((c' :: n) ++ [slash]). split; [right; eauto|].
    rewrite <- app_assoc. reflexivity.
  - rewrite bool_decide_eq_false_2 by discriminate.
    rewrite bool_decide_eq_true_2 by reflexivity. cbn [negb].
    exists ((c :: d) ++ [slash]). split; [right; eauto|].
    rewrite <- app_assoc. reflexivity.
  - rewrite !bool_decide_eq_false_2 by discriminate. cbn [negb].
    exists (((c :: d) ++ slash :: c' :: n) ++ [slash]). split; [right; eauto|].
    rewrite <- !app_assoc. reflexivity.
Qed.

(** Joining a plain relative directory spelled [./d] and a file name. *)
Lemma join_dot_dir d f :
  plainSegment d = true -> plainSegment f = true ->
  join [dot :: slash :: d; f] = d ++ slash :: f.
Proof.
  intros Hd Hf.
  destruct (plainSegment_spec d Hd) as (_ & _ & _ & Hdslash).
  destruct (plainSegment_spec f Hf) as (Hne & _ & _ & Hslash).
  unfold join. cbn [List.filter].
  rewrite (bool_decide_eq_false_2 (dot :: slash :: d = [])) by discriminate.
  rewrite (bool_decide_eq_false_2 (f = [])) by assumption. cbn [negb].
  change (JS.join slash [dot :: slash :: d; f])
    with (dot :: slash :: (d ++ slash :: f)).
  apply normalize_dot_slash.
  rewrite (split_first_piece slash d f Hdslash), (split_free slash f Hslash).
  cbn [forallb]. now rewrite Hd, Hf.
Qed.

End MoreResolverFacts.

(** X8.  The path resolver always answers a path whose base name is
    [index.html], so resolving a resolved path changes nothing. *)
Theorem formatFilename_idempotent (P : jstring) :
  Path.base (Path.parse (formatFilename P)) = index_html /\
  formatFilename (formatFilename P) = formatFilename P.
Proof.
  assert (Hbase : Path.base (Path.parse (formatFilename P)) = index_html).
  { unfold formatFilename.
    destruct (decide (Path.base (Path.parse P) = index_html)) as [E|_]; [exact E|].
    destruct (join_ends_index (Path.dir (Path.parse P)) (Path.name (Path.parse P)))
      as (pre & Hpre & ->).
    now apply normalize_keeps_index. }
  split; [exact Hbase|]. now apply formatFilename_index.
Qed.

(** X9.  The page of a document is written where its href points: for
    an entry [f] of the posts directory that is a plain file name
    other than [index.html] and whose name is a plain segment, the
    href is [posts/<name>], the page goes to
    [build/<href>/index.html], and the directory [write] creates for
    it is [build/<href>]. *)
Theorem document_page_at_href (f : jstring) :
  plainSegment f = true ->
  f <> index_html ->
  let P := Path.join [POSTS_DIR; f] in
  plainSegment (Path.name (Path.parse P)) = true ->
  hrefOf P = js "posts" ++ Path.slash :: Path.name (Path.parse P) /\
  outputPath P = js "build" ++ Path.slash :: hrefOf P ++ Path.slash :: index_html /\
  Path.dir (Path.parse (outputPath P)) = js "build" ++ Path.slash :: hrefOf P.
Proof.
  intros Hf Hidx P Hname.
  destruct (document_href f Hf Hidx Hname) as (_ & _ & Hhref). fold P in Hhref.
  destruct (plainSegment_spec f Hf) as (Hne & _ & _ & Hslash).
  assert (HP : P = js "posts" ++ Path.slash :: f) by (apply join_posts_entry, Hf).
  assert (Hjoin : Path.join [js "build"; P] = js "build/posts" ++ Path.slash :: f).
  { rewrite HP. unfold Path.join. cbn [List.filter].
    rewrite !bool_decide_eq_false_2 by discriminate. cbn [negb].
    change (JS.join Path.slash [js "build"; js "posts" ++ Path.slash :: f])
      with (js "build/posts" ++ Path.slash :: f).
    apply normalize_plain. unfold plainPath.
    change (forallb plainSegment
              (JS.split Path.slash (js "build/posts" ++ Path.slash :: f)) = true).
    rewrite split_app, (split_free Path.slash f Hslash), forallb_app.
    cbn [forallb]. rewrite Hf. reflexivity. }
  assert (Hparse : Path.parse (js "build/posts" ++ Path.slash :: f)
                   = Path.mkParsed [] (js "build/posts") f
                       (snd (fileParts f)) (fst (fileParts f)))
    by (apply parse_snoc; [discriminate|assumption..]).
  assert (HparseP : Path.parse P
                    = Path.mkParsed [] (js "posts") f
                        (snd (fileParts f)) (fst (fileParts f)))
    by (rewrite HP; apply parse_snoc; [discriminate|assumption..]).
  rewrite HparseP in Hname, Hhref |- *. cbn [Path.name] in Hname, Hhref |- *.
  assert (Hout : outputPath P
                 = js "build/posts" ++ Path.slash :: fst (fileParts f)
                     ++ Path.slash :: index_html).
  { unfold outputPath. rewrite Hjoin, formatFilename_other by (now rewrite Hparse).
    rewrite Hparse. cbn [Path.dir Path.name].
    now apply join_dir_name. }
  split; [exact Hhref|]. split.
  - rewrite Hout, Hhref. reflexivity.
  - rewrite Hout, Hhref.
    assert (E : js "build/posts" ++ Path.slash :: fst (fileParts f)
                  ++ Path.slash :: index_html
                = (js "build/posts" ++ Path.slash :: fst (fileParts f))
                    ++ Path.slash :: index_html)
      by (now rewrite <- app_assoc).
    rewrite E.
    apply parse_dir_snoc; auto using index_html_not_nil, index_html_no_slash.
Qed.

Lemma document_page_at_href_witness :
  hrefOf (js "posts/hello.org") = js "posts/hello" /\
  outputPath (js "posts/hello.org") = js "build/posts/hello/index.html" /\
  Path.dir (Path.parse (outputPath (js "posts/hello.org"))) = js "build/posts/hello".
Proof.
  apply (document_page_at_href (js "hello.org")); [reflexivity|discriminate|reflexivity].
Defined.

(** X10.  The output path does not depend on the extension: two
    sources [x/s.e1] and [x/s.e2] with the same directory and the same
    plain name, neither called [index.html], are resolved to the same
    output path, [path.join(x, s, index.html)]. *)
Theorem formatFilename_ignores_extension (x s e1 e2 : jstring) :
  x <> [] ->
  plainSegment s = true ->
  ~ In Path.dot e1 -> ~ In Path.slash e1 ->
  ~ In Path.dot e2 -> ~ In Path.slash e2 ->
  s ++ Path.dot :: e1 <> index_html ->
  s ++ Path.dot :: e2 <> index_html ->
  formatFilename (x ++ Path.slash :: s ++ Path.dot :: e1)
  = Path.join [x; s; index_html] /\
  formatFilename (x ++ Path.slash :: s ++ Path.dot :: e1)
  = formatFilename (x ++ Path.slash :: s ++ Path.dot :: e2).
Proof.
  intros Hx Hs Hd1 Hs1 Hd2 Hs2 Hi1 Hi2.
  assert (Hone : forall e, ~ In Path.dot e -> ~ In Path.slash e ->
             s ++ Path.dot :: e <> index_html ->
             formatFilename (x ++ Path.slash :: s ++ Path.dot :: e)
             = Path.join [x; s; index_html]).
  { intros e Hd He Hi.
    destruct (plainSegment_spec s Hs) as (_ & _ & _ & Hss).
    assert (Hparse := parse_snoc x (s ++ Path.dot :: e) Hx).
    rewrite (fileParts_stem s e Hs Hd) in Hparse. cbn [fst snd] in Hparse.
    rewrite formatFilename_other; rewrite Hparse.
    - reflexivity.
    - now destruct s.
    - intros H. apply in_app_or in H as [H|[H|H]]; [contradiction|discriminate|contradiction].
    - exact Hi.
    - now destruct s.
    - intros H. apply in_app_or in H as [H|[H|H]]; [contradiction|discriminate|contradiction]. }
  split; [now apply Hone|]. now rewrite !Hone.
Qed.

Lemma formatFilename_ignores_extension_witness :
  formatFilename (js "posts/hello.org") = formatFilename (js "posts/hello.org~").
Proof.
  apply (formatFilename_ignores_extension (js "posts") (js "hello") (js "org") (js "org~"));
    try discriminate; try reflexivity; absent.
Defined.

(** ** More on the runs of the script *)

Section MoreRunFacts.

Variable X : Collaborators.

Implicit Types (tr logs : list event) (posts data : list PostData).



Lemma isConsole_written logs : Forall isConsole logs -> written logs = [].
Proof.
  induction 1 as [|ev logs Hev _ IH]; [reflexivity|].
  unfold written in *. simpl. rewrite IH. now destruct ev.
Qed.

Lemma postsLoop_all_skipped names data0 tr :
  Forall (fun f => isOrg f = false) names ->
  postsLoop X names data0 tr = (Ok data0, tr ++ List.map skipLine names).
Proof.
  intros Hall. revert tr. induction Hall as [|f names Hf _ IH]; intros tr.
  - cbn [postsLoop List.map]. now rewrite app_nil_r.
  - cbn [postsLoop List.map]. fold (isOrg f). rewrite Hf. cbn [negb].
    rewrite emit_then, IH, <- app_assoc. reflexivity.
Qed.

Lemma postsLoop_TypeError names data0 tr e tr' :
  postsLoop X names data0 tr = (Throw e, tr') -> e = TypeError.
Proof.
  revert data0 tr. induction names as [|f names IH]; intros data0 tr.
  - cbn [postsLoop]. intros H. apply pair_equal_spec in H as [[=] _].
  - cbn [postsLoop]. destruct (negb _).
    + rewrite emit_then. apply IH.
    + rewrite bind_run. unfold lift at 1.
      destruct (compileOrgFile X (Path.join [POSTS_DIR; f])) as [compiled|e0] eqn:Hc.
      * apply IH.
      * intros H. apply pair_equal_spec in H as [[= <-] _].
        exact (compileOrgFile_TypeError X _ _ Hc).
Qed.

End MoreRunFacts.




Lemma build_loader_failure_parts (X : Collaborators) (e : exception)
  (logs : list event) :
  postsData X [] = (Throw e, logs) ->
  build X [] = (Throw TypeError, logs) /\ e = TypeError /\ written logs = [].
Proof.
  intros Hload.
  assert (He : e = TypeError)
    by (unfold postsData in Hload; exact (postsLoop_TypeError X _ _ _ _ _ Hload)).
  subst e. split; [|split; [reflexivity|exact (postsData_writes_nothing X _ _ Hload)]].
  unfold build. now rewrite bind_run, Hload.
Qed.

Section MoreAbortFacts.

Variable X : Collaborators.

Lemma write_throws_MinifyError filename content tr e tr' :
  write X filename content tr = (Throw e, tr') -> exists e', e = MinifyError e'.
Proof.
  destruct (first_rejected X (scriptsOf X (highlightHtml X content)))
    as [Hall|(before & text & after & e0 & Hs & Hb & He)].
  - rewrite (write_return X filename content tr Hall).
    intros H. apply pair_equal_spec in H as [[=] _].
  - rewrite (write_throw X filename content before text after e0 tr Hs Hb He).
    intros H. apply pair_equal_spec in H as [[= <-] _]. eauto.
Qed.

Lemma genPosts_throws_MinifyError (posts : list PostData) tr e tr' :
  genPosts X posts tr = (Throw e, tr') -> exists e', e = MinifyError e'.
Proof.
  unfold genPosts. revert tr. induction posts as [|post posts IH]; intros tr.
  - cbn [forOf]. intros H. apply pair_equal_spec in H as [[=] _].
  - cbn [forOf]. rewrite seq_run.
    destruct (write X (fullpath post) _ tr) as [[u|e0] tr1] eqn:Hw.
    + apply IH.
    + intros H. apply pair_equal_spec in H as [[= <-] _].
      exact (write_throws_MinifyError _ _ _ _ _ Hw).
Qed.

End MoreAbortFacts.

(** X13.  A run of the script that is aborted by the minifier's error
    has loaded the documents and has written the font stylesheet and,
    after it, the pages of the first Documents of the list, in list
    order, and nothing else: no index page follows them. *)
Theorem build_aborted_by_minifier (X : Collaborators) (e' : jstring)
  (tr : list event) :
  build X [] = (Throw (MinifyError e'), tr) ->
  exists data logs k,
    postsData X [] = (Ok data, logs) /\
    written tr = fontsFile X :: List.map (postPage X) (firstn k data).
Proof.
  intros Hrun.
  destruct (postsData X []) as [[data|e0] logs] eqn:Hload.
  - exists data, logs.
    rewrite (build_after_load X data logs Hload), seq_run in Hrun.
    assert (Hlogs := postsData_writes_nothing X _ _ Hload).
    destruct (genPosts X data _) as [[u|e1] tr1] eqn:Hposts in Hrun.
    + apply genIndex_written in Hrun. apply genPosts_written in Hposts.
      exists (length data).
      split; [reflexivity|].
      rewrite Hrun, Hposts, !written_app, Hlogs, firstn_all, app_nil_r. reflexivity.
    + apply pair_equal_spec in Hrun as [_ <-].
      apply genPosts_written in Hposts as [k Hk]. exists k.
      split; [reflexivity|].
      rewrite Hk, !written_app, Hlogs. reflexivity.
  - destruct (build_loader_failure_parts X e0 logs Hload) as (Hb & _).
    rewrite Hb in Hrun. apply pair_equal_spec in Hrun as [[=] _].
Qed.

Lemma build_aborted_by_minifier_witness :
  let X := demo [js "hello.org"] brokenOrg in
  exists data logs k,
    postsData X [] = (Ok data, logs) /\
    written (snd (build X [])) = fontsFile X :: List.map (postPage X) (firstn k data).
Proof.
  intros X.
  apply (build_aborted_by_minifier X (js "SyntaxError") (snd (build X []))).
  vm_compute. reflexivity.
Defined.

(** X14.  When the document loader throws, the run of the script ends
    there with the loader's [TypeError]: the script has only printed
    [Skipping] lines; it has created no directory and written no
    file, not even the asset directory and the font stylesheet. *)
Theorem build_loader_failure (X : Collaborators) (e : exception)
  (logs : list event) :
  postsData X [] = (Throw e, logs) ->
  build X [] = (Throw TypeError, logs) /\
  e = TypeError /\
  Forall isConsole logs /\
  written logs = [].
Proof.
  intros Hload.
  destruct (build_loader_failure_parts X e logs Hload) as (Hb & He & Hw).
  split; [exact Hb|]. split; [exact He|]. split; [|exact Hw].
  unfold postsData in Hload. apply postsLoop_prints in Hload as [lines ->].
  cbn [app]. clear. induction lines as [|line lines IH]; [constructor|].
  constructor; [exact I|exact IH].
Qed.

Lemma build_loader_failure_witness :
  let X := demo [js "README.md"; js "hello.org"] (js "hello") in
  build X [] = (Throw TypeError, [skipLine (js "README.md")]).
Proof.
  intros X.
  apply (build_loader_failure X TypeError [skipLine (js "README.md")]).
  reflexivity.
Defined.

(** X15.  A site without documents is built all the same: when no
    entry of the posts directory has a name containing [.org] (an empty
    directory included) and the minifier accepts the scripts of the
    index page, the run completes; it prints one [Skipping] line per
    entry, creates [build/assets], writes the font stylesheet, and
    writes to [build/index.html] the index page rendered from the empty
    Document list. *)
Theorem build_without_documents (X : Collaborators) :
  let names := readdirSync X POSTS_DIR in
  let index := makeIndex X [] (defaults X None) in
  Forall (fun f => JS.includes (js ".org") f = false) names ->
  Forall (accepted X) (scriptsOf X (highlightHtml X index)) ->
  build X []
  = (Ok tt,
     List.map skipLine names
     ++ [MkdirSync (js "build/assets");
         WriteFileSync (js "build/assets/fonts.css") (fontsCss X);
         MkdirSync (js "build");
         ConsoleLog (js "Writing to build/index.html")]
     ++ flat_map (warningLog X) (scriptsOf X (highlightHtml X index))
     ++ [WriteFileSync (js "build/index.html") (optimized X index)]).
Proof.
  intros names index Hskip Hacc.
  assert (Hload : postsData X [] = (Ok [], List.map skipLine names))
    by (unfold postsData; now rewrite postsLoop_all_skipped).
  rewrite (build_after_load X [] _ Hload), seq_run.
  unfold genPosts. cbn [forOf]. unfold mret at 1, M_ret at 1.
  unfold genIndex. fold index. rewrite (write_return X _ _ _ Hacc).
  rewrite <- !app_assoc. reflexivity.
Qed.

Lemma build_without_documents_witness :
  let X := demo [js "README.md"] [] in
  written (snd (build X []))
  = [(js "build/assets/fonts.css", js "@font-face{}");
     (js "build/index.html", js "<title>Frank Filho</title>")].
Proof.
  intros X.
  rewrite (build_without_documents X).
  - reflexivity.
  - repeat constructor.
  - constructor.
Defined.

(** ** Partials *)

Lemma plainSegment_with_extension (s e : jstring) :
  plainSegment s = true -> ~ In Path.slash e ->
  plainSegment (s ++ Path.dot :: e) = true.
Proof.
  intros Hs He. destruct (plainSegment_spec s Hs) as (Hnil & Hdot & _ & Hslash).
  unfold plainSegment.
  rewrite (bool_decide_eq_false_2 (s ++ Path.dot :: e = [])) by (now destruct s).
  rewrite (bool_decide_eq_false_2 (s ++ Path.dot :: e = [Path.dot])).
  2:{ destruct s as [|c [|c' s]]; [congruence|discriminate|discriminate]. }
  rewrite (bool_decide_eq_false_2 (s ++ Path.dot :: e = [Path.dot; Path.dot])).
  2:{ destruct s as [|c [|c' [|c'' s]]]; try congruence; try discriminate.
      intros [= -> _]. now apply Hdot. }
  cbn [negb andb]. apply forallb_forall. intros c Hc.
  apply negb_true_iff, N.eqb_neq. intros ->.
  apply in_app_or in Hc as [Hc|[Hc|Hc]]; [contradiction|discriminate|contradiction].
Qed.

(** X16.  The partials are registered one per file, in directory
    order, each under the file name without its extension: when the
    partials directory lists the files [s1.e1], ..., [sn.en], each name
    [si] a plain segment, the calls made are, in this order,
    [(s1, content of partials/s1.e1)], ..., [(sn, content of
    partials/sn.en)]. *)
Theorem registerPartials_strips_extension (X : Collaborators)
  (files : list (jstring * jstring)) :
  readdirSync X PARTIALS_DIR
  = List.map (fun se => fst se ++ Path.dot :: snd se) files ->
  Forall (fun se => plainSegment (fst se) = true /\
                    ~ In Path.dot (snd se) /\ ~ In Path.slash (snd se)) files ->
  registerPartials X
  = List.map
      (fun se =>
         (fst se,
          readFileSync X (js "partials" ++ Path.slash :: fst se ++ Path.dot :: snd se)))
      files.
Proof.
  intros Hnames Hall. unfold registerPartials. rewrite Hnames, List.map_map.
  apply map_ext_in. intros [s e] Hin. cbn [fst snd].
  rewrite List.Forall_forall in Hall. destruct (Hall _ Hin) as (Hs & Hdot & Hslash).
  cbn [fst snd] in Hs, Hdot, Hslash.
  assert (Hf := plainSegment_with_extension s e Hs Hslash).
  destruct (plainSegment_spec _ Hf) as (Hne & _ & _ & Hfs).
  change PARTIALS_DIR with (Path.dot :: Path.slash :: js "partials").
  rewrite (join_dot_dir (js "partials") _ eq_refl Hf).
  rewrite (parse_snoc (js "partials") _ ltac:(discriminate) Hne Hfs).
  cbn [Path.name]. now rewrite (fileParts_stem s e Hs Hdot).
Qed.

Lemma registerPartials_strips_extension_witness :
  let X := demo [js "header.hbs"; js "footer.html"] (js "<hr>") in
  registerPartials X = [(js "header", js "<hr>"); (js "footer", js "<hr>")].
Proof.
  intros X.
  apply (registerPartials_strips_extension X
           [(js "header", js "hbs"); (js "footer", js "html")]).
  - reflexivity.
  - repeat constructor; try reflexivity; absent.
Defined.

(** ** When the build completes *)

Section CompletionFacts.

Variable X : Collaborators.

Lemma genPosts_accepted (posts : list PostData) (tr : list event) :
  Forall (acceptedPost X) posts ->
  exists tr', genPosts X posts tr = (Ok tt, tr').
Proof.
  unfold genPosts. intros Hall. revert tr.
  induction Hall as [|post posts Hp _ IH]; intros tr; cbn [forOf].
  - eexists. reflexivity.
  - rewrite seq_run, (write_return X _ _ tr Hp). apply IH.
Qed.

(** A page is accepted or rejected. *)
Lemma accepted_or_rejected (page : jstring) :
  Forall (accepted X) (scriptsOf X (highlightHtml X page)) \/ rejectedPage X page.
Proof.
  destruct (first_rejected X (scriptsOf X (highlightHtml X page)))
    as [Hall|(before & text & after & e & Hs & _ & He)]; [now left|right].
  unfold rejectedPage. rewrite Hs. apply List.Exists_exists.
  exists text. split; [apply in_elt|]. now rewrite He.
Qed.

Lemma acceptedPosts_or_rejected (posts : list PostData) :
  Forall (acceptedPost X) posts \/
  Exists (fun post => rejectedPage X (makePost X post (defaults X (Some post)))) posts.
Proof.
  induction posts as [|post posts [IH|IH]].
  - left. constructor.
  - destruct (accepted_or_rejected (makePost X post (defaults X (Some post))))
      as [Hp|Hp].
    + left. now constructor.
    + right. now apply Exists_cons_hd.
  - right. now apply Exists_cons_tl.
Qed.

End CompletionFacts.

(** X17.  A run of the script completes only if the document loader
    has returned and the minifier has accepted every script of every
    page, the pages of the Documents and the index page: when the file
    of an entry does not compile or a page has a rejected script, the
    run does not complete. *)
Theorem build_completes_only_if (X : Collaborators) (tr : list event) :
  build X [] = (Ok tt, tr) ->
  exists data logs,
    postsData X [] = (Ok data, logs) /\
    Forall (acceptedPost X) data /\
    Forall (accepted X)
      (scriptsOf X (highlightHtml X (makeIndex X data (defaults X None)))).
Proof.
  intros Hrun.
  destruct (postsData X []) as [[data|e] logs] eqn:Hload.
  - exists data, logs. split; [reflexivity|].
    destruct (acceptedPosts_or_rejected X data) as [Hposts|Hposts].
    + split; [assumption|].
      destruct (accepted_or_rejected X (makeIndex X data (defaults X None)))
        as [Hindex|Hindex]; [assumption|].
      destruct (build_rejected X data logs Hload (or_intror Hindex)) as (e & tr' & H).
      rewrite H in Hrun. discriminate Hrun.
    + destruct (build_rejected X data logs Hload (or_introl Hposts)) as (e & tr' & H).
      rewrite H in Hrun. discriminate Hrun.
  - destruct (build_loader_failure_parts X e logs Hload) as (H & _).
    rewrite H in Hrun. discriminate Hrun.
Qed.

Lemma build_completes_only_if_witness :
  let X := demo threeEntries helloOrg in
  exists data logs,
    postsData X [] = (Ok data, logs) /\
    Forall (acceptedPost X) data /\
    Forall (accepted X)
      (scriptsOf X (highlightHtml X (makeIndex X data (defaults X None)))).
Proof.
  intros X. apply (build_completes_only_if X (snd (build X []))).
  vm_compute. reflexivity.
Defined.
